(** * kiyoi: the sealed-cookie session module (session.ts) and [mergeCookies]

    A shallow embedding of [Session] (get, save, destroy, create, validate,
    touch, onValidate, onTouch, removeListener), of the bundled plugins
    [expires] and [idle], and of [mergeCookies].

    JavaScript objects are mutable and passed by reference: a session is a
    location in a heap of objects, and plugin hooks, validators and touch
    listeners are store transformers that may mutate the object they are
    given, allocate new ones, read the clock, or throw. *)

From Stdlib Require Import ZArith Ascii String List Lia.
From stdpp Require Import base option list gmap strings fin_maps countable pretty.

Open Scope string_scope.
Open Scope list_scope.

(** ** JavaScript values held in session fields and cookie attributes *)

(** Field values are primitives. Numbers are the integers (timestamps in
    milliseconds, well inside the exactly represented range) and NaN. *)
Inductive Value : Type :=
  | VUndefined
  | VNull
  | VBool (b : bool)
  | VNumber (n : Z)
  | VNaN
  | VString (s : string).

#[global] Instance Value_eq_dec : EqDecision Value.
Proof. solve_decision. Defined.

(** An object is a finite map from property names to values. *)
Abbreviation Obj := (gmap string Value).

(** Property read [o.k]: a missing property reads as [undefined]. *)
Definition prop (o : Obj) (k : string) : Value := default VUndefined (o !! k).

(** A cookie as the cookie stores hand it out: [RequestCookie] has a name and
    a value, [ResponseCookie] carries the attributes given to [set] as well. *)
Record Cookie : Type := mkCookie {
  cookie_name : string;
  cookie_value : string;
  cookie_options : Obj }.

Abbreviation Jar := (gmap string Cookie).

(** ** The store: everything a call can read or mutate *)

(** Objects live in [heap] and are referred to by their index, cookie jars
    (the state behind a request's or a response's [cookies]) live in [jars];
    a jar that was never written to is empty.
    [Date.now()] reads [clock] at position [ticks], so two reads need not
    agree; random draws ([nanoid], the salts of [Iron.seal]) are numbered by
    [rng]. *)
Abbreviation loc := nat.

Record Store : Type := mkStore {
  heap : list Obj;
  jars : gmap nat Jar;
  clock : nat -> Z;
  ticks : nat;
  rng : nat }.

Definition set_heap (h : list Obj) (st : Store) : Store :=
  mkStore h (jars st) (clock st) (ticks st) (rng st).
Definition set_jars (js : gmap nat Jar) (st : Store) : Store :=
  mkStore (heap st) js (clock st) (ticks st) (rng st).
Definition set_ticks (n : nat) (st : Store) : Store :=
  mkStore (heap st) (jars st) (clock st) n (rng st).
Definition set_rng (n : nat) (st : Store) : Store :=
  mkStore (heap st) (jars st) (clock st) (ticks st) n.

(** ** Completions and the state-and-exception monad *)

Inductive Exn : Type :=
  | Error (message : string)
  | TypeError (message : string).

Inductive completion (A : Type) : Type :=
  | Normal (a : A)
  | Throw (e : Exn).
Arguments Normal {A} a.
Arguments Throw {A} e.

(** A JavaScript computation: it runs in a store, leaves a store (mutations
    made before a [throw] stay), and either returns or throws. An [async]
    function is run to the settlement of its promise: [Throw] is rejection. *)
Definition M (A : Type) : Type := Store -> Store * completion A.

Definition ret {A} (a : A) : M A := fun st => (st, Normal a).
Definition throw {A} (e : Exn) : M A := fun st => (st, Throw e).
Definition bind {A B} (m : M A) (k : A -> M B) : M B :=
  fun st =>
    match m st with
    | (st', Normal a) => k a st'
    | (st', Throw e) => (st', Throw e)
    end.

(** [try { body } catch { handler }]: the handler runs in the store the
    body left behind; the thrown value is not bound. *)
Definition try_catch {A} (body handler : M A) : M A :=
  fun st =>
    match body st with
    | (st', Normal a) => (st', Normal a)
    | (st', Throw _) => handler st'
    end.

Notation "'let!' x ':=' m 'in' k" := (bind m (fun x => k))
  (at level 10, x name, m at level 100, k at level 200).
Notation "m '>>' k" := (bind m (fun _ => k))
  (at level 90, right associativity).

(** Heap primitives. Dereferencing a reference that denotes no object throws
    a [TypeError], as a property access on [undefined] does. *)
Definition alloc (o : Obj) : M loc :=
  fun st => (set_heap (heap st ++ [o]) st, Normal (length (heap st))).

Definition deref (l : loc) : M Obj :=
  fun st =>
    match heap st !! l with
    | Some o => (st, Normal o)
    | None => (st, Throw (TypeError "cannot read properties of undefined"))
    end.

Definition get_prop (l : loc) (k : string) : M Value :=
  let! o := deref l in ret (prop o k).

Definition set_prop (l : loc) (k : string) (v : Value) : M unit :=
  let! o := deref l in
  fun st => (set_heap (<[l := <[k := v]> o]> (heap st)) st, Normal tt).

(** [Date.now()] *)
Definition Date_now : M Z :=
  fun st => (set_ticks (S (ticks st)) st, Normal (clock st (ticks st))).

(** ** Map: insertion-ordered, one entry per key *)

Module JsMap.
Definition t (V : Type) : Type := list (string * V).

Fixpoint set {V} (k : string) (v : V) (m : t V) : t V :=
  match m with
  | [] => [(k, v)]
  | (k', v') :: m' =>
      if String.eqb k k' then (k, v) :: m' else (k', v') :: set k v m'
  end.

Fixpoint delete {V} (k : string) (m : t V) : t V :=
  match m with
  | [] => []
  | (k', v') :: m' =>
      if String.eqb k k' then m' else (k', v') :: delete k m'
  end.

Definition keys {V} (m : t V) : list string := map fst m.
Definition values {V} (m : t V) : list V := map snd m.
End JsMap.

(** ** The platform: what the module imports from outside the repository *)

(** [nanoid] and [iron-webcrypto] are libraries, [Crypto] is the host's
    WebCrypto object, and the two conversions are the language's. They are
    parameters of the development.
    - [nanoid_at n] is the identifier that the [n]-th random draw yields;
    - [seal c n o pw] is [Iron.seal(c, o, pw, Iron.defaults)] at draw [n]; it
      may throw (Iron rejects some passwords);
    - [unseal c tok pw] is [Iron.unseal(c, tok, pw, Iron.defaults)]; it
      throws on a token it cannot open, and what it opens is taken to be an
      object, as the cast to [Session<T>] has it;
    - [StringToNumber s] is [None] for NaN. *)
Class Platform : Type := {
  Crypto : Type;
  nanoid_at : nat -> string;
  seal : Crypto -> nat -> Obj -> string -> completion string;
  unseal : Crypto -> string -> string -> completion Obj;
  StringToNumber : string -> option Z;
  NumberToString : Z -> string }.

Section Primitives.
Context {P : Platform}.

(** [nanoid()] *)
Definition nanoid : M string :=
  fun st => (set_rng (S (rng st)) st, Normal (nanoid_at (rng st))).

(** [await Iron.seal(crypto, session, password, Iron.defaults)]: the object
    behind [session] is serialised as it is at this moment. *)
Definition Iron_seal (c : Crypto) (session : loc) (password : string) : M string :=
  let! o := deref session in
  fun st => (set_rng (S (rng st)) st, seal c (rng st) o password).

(** [await Iron.unseal(crypto, sealed, password, Iron.defaults)]: the
    payload is parsed into a new object. *)
Definition Iron_unseal (c : Crypto) (sealed password : string) : M loc :=
  match unseal c sealed password with
  | Normal o => alloc o
  | Throw e => throw e
  end.

(** ToNumber on the values of the model; [None] is NaN. *)
Definition ToNumber (v : Value) : option Z :=
  match v with
  | VUndefined => None
  | VNull => Some 0%Z
  | VBool b => Some (if b then 1%Z else 0%Z)
  | VNumber n => Some n
  | VNaN => None
  | VString s => StringToNumber s
  end.

(** [v - n] for a number [n] *)
Definition js_sub (v : Value) (n : Z) : Value :=
  match ToNumber v with
  | Some m => VNumber (m - n)
  | None => VNaN
  end.

(** [v + n] for a number [n]: concatenation when [v] is a string *)
Definition js_add (v : Value) (n : Z) : Value :=
  match v with
  | VString s => VString (s +:+ NumberToString n)
  | _ => match ToNumber v with
         | Some m => VNumber (m + n)
         | None => VNaN
         end
  end.

(** [v > n] for a number [n]: false as soon as [v] converts to NaN *)
Definition js_gt (v : Value) (n : Z) : bool :=
  match ToNumber v with
  | Some m => (n <? m)%Z
  | None => false
  end.
End Primitives.

(** ** Cookie stores *)

(** The object shape that [RequestCookies] and [ResponseCookies] share. The
    methods are bound to the object they were taken from, so each is a
    function of the store alone. *)
Module ResponseCookies.
Record t : Type := mk {
  get : string -> Store -> option Cookie;
  getAll : Store -> list Cookie;
  has : string -> Store -> bool;
  set : string -> string -> Obj -> Store -> Store;
  delete : string -> Store -> Store }.
End ResponseCookies.

(** [GetCookieStore]: the only method that [Session.get] asks for. *)
Record GetCookieStore : Type := mkGetCookieStore {
  store_get : string -> Store -> option Cookie }.

Definition as_GetCookieStore (cs : ResponseCookies.t) : GetCookieStore :=
  mkGetCookieStore (ResponseCookies.get cs).
Coercion as_GetCookieStore : ResponseCookies.t >-> GetCookieStore.

(** Modelled from the spec: the cookies object of the host framework, which
    is not part of the repository. Section 6 gives its contract:
    [get(name) -> cookie | absent], [set(name, value, attributes)],
    [delete(name)], removing an absent cookie being a no-op. [cookies_of j]
    is the object whose cookies are kept in jar [j] of the store. *)
Definition cookies_of (j : nat) : ResponseCookies.t :=
  ResponseCookies.mk
    (fun n st => (jars st !!! j) !! n)
    (fun st => (map_to_list (jars st !!! j)).*2)
    (fun n st => bool_decide (is_Some ((jars st !!! j) !! n)))
    (fun n v o st =>
       set_jars (<[j := <[n := mkCookie n v o]> (jars st !!! j)]> (jars st)) st)
    (fun n st => set_jars (alter (delete n) j (jars st)) st).

Record NextRequest : Type := { req_cookies : ResponseCookies.t }.
Record NextResponse : Type := { res_cookies : ResponseCookies.t }.

(** [mergeCookies(req, res)] *)
Definition mergeCookies (req : NextRequest) (res : NextResponse) : ResponseCookies.t :=
  ResponseCookies.mk
    (ResponseCookies.get (req_cookies req))
    (ResponseCookies.getAll (req_cookies req))
    (ResponseCookies.has (req_cookies req))
    (ResponseCookies.set (res_cookies res))
    (ResponseCookies.delete (res_cookies res)).

(** ** Result and SessionError *)

(** Modelled from the spec: [./result.js] is not among the sources. Section 2
    describes it as a two-variant outcome wrapper, success value or typed
    error, with constructors [ok] and [error]. *)
Module Result.
Inductive t (T E : Type) : Type :=
  | ok (v : T)
  | error (e : E).
Arguments ok {T E} v.
Arguments error {T E} e.
End Result.

(** Modelled from the spec: [SessionError] is built with [Enum] from
    [./enum.js], which is not among the sources. Section 7 lists its three
    kinds, the keys of [Enum({ NoCookie, InvalidCookie, ValidationFailed })]. *)
Inductive SessionError : Type :=
  | NoCookie
  | InvalidCookie
  | ValidationFailed.

(** ** Plugins *)

Module SessionPlugin.
Record t : Type := mk {
  create : option (loc -> M loc);
  validate : option (loc -> M bool);
  touch : option (loc -> M loc) }.
End SessionPlugin.

(** ** String methods used by [removeListener] *)

(** [s.startsWith(p)] *)
Definition startsWith (s p : string) : bool := String.prefix p s.

(** [s.slice(n)]: [s] without its first [n] characters *)
Fixpoint slice (s : string) (n : nat) {struct n} : string :=
  match n, s with
  | O, _ => s
  | S n', String _ s' => slice s' n'
  | S _, EmptyString => EmptyString
  end.

(** ** The session module *)

Module Session.
Section Session.
Context {P : Platform}.

Definition Validator : Type := loc -> M bool.
Definition Toucher : Type := loc -> M loc.

(** The module's mutable state: the variable [sessionSecret] and the
    properties [crypto], [_validators] and [_touchListeners] of the
    [Session] object. Validators and touch listeners work on the store;
    they do not register or remove listeners while they run. *)
Record Globals : Type := mkGlobals {
  sessionSecret : option string;
  crypto : Crypto;
  _validators : JsMap.t Validator;
  _touchListeners : JsMap.t Toucher }.

Definition set_sessionSecret (s : option string) (g : Globals) : Globals :=
  mkGlobals s (crypto g) (_validators g) (_touchListeners g).
Definition set_crypto (c : Crypto) (g : Globals) : Globals :=
  mkGlobals (sessionSecret g) c (_validators g) (_touchListeners g).
Definition set_validators (m : JsMap.t Validator) (g : Globals) : Globals :=
  mkGlobals (sessionSecret g) (crypto g) m (_touchListeners g).
Definition set_touchListeners (m : JsMap.t Toucher) (g : Globals) : Globals :=
  mkGlobals (sessionSecret g) (crypto g) (_validators g) m.

Definition sessionName : string := "session".

(** [setSessionSecret(pw)] *)
Definition setSessionSecret (pw : string) (g : Globals) : Globals :=
  set_sessionSecret (Some pw) g.

(** [!sessionSecret]: [undefined] and the empty string are falsy. *)
Definition secret_unset (g : Globals) : bool :=
  match sessionSecret g with
  | None => true
  | Some EmptyString => true
  | Some (String _ _) => false
  end.

(** Calls of the cookie store's methods. *)
Definition call_get (cookieStore : GetCookieStore) (key : string) : M (option Cookie) :=
  fun st => (st, Normal (store_get cookieStore key st)).
Definition call_set (cookieStore : ResponseCookies.t) (key v : string) (o : Obj) : M unit :=
  fun st => (ResponseCookies.set cookieStore key v o st, Normal tt).
Definition call_delete (cookieStore : ResponseCookies.t) (key : string) : M unit :=
  fun st => (ResponseCookies.delete cookieStore key st, Normal tt).

(** [Session.id()] *)
Definition id : M string := nanoid.

(** The loop of [Session.validate] over [_validators.values()] *)
Fixpoint run_validators (vs : list Validator) (session : loc) : M bool :=
  match vs with
  | [] => ret true
  | validator :: vs' =>
      let! r := validator session in
      if negb r then ret false else run_validators vs' session
  end.

(** [Session.validate(session)] *)
Definition validate (g : Globals) (session : loc) : M bool :=
  run_validators (JsMap.values (_validators g)) session.

(** The loop of [Session.touch] over [_touchListeners.values()]: what a
    toucher returns is dropped. *)
Fixpoint run_touchers (ts : list Toucher) (session : loc) : M unit :=
  match ts with
  | [] => ret tt
  | toucher :: ts' => toucher session >> run_touchers ts' session
  end.

(** [Session.touch(session)] *)
Definition touch (g : Globals) (session : loc) : M loc :=
  run_touchers (JsMap.values (_touchListeners g)) session >> ret session.

(** [Session.get(cookieStore)] *)
Definition get (g : Globals) (cookieStore : GetCookieStore)
  : M (Result.t loc SessionError) :=
  match sessionSecret g with
  | None | Some EmptyString => throw (Error "kiyoi: session secret is not set")
  | Some pw =>
      let! cookie := call_get cookieStore sessionName in
      match cookie with
      | None => ret (Result.error NoCookie)
      | Some cookie =>
          try_catch
            (let! session := Iron_unseal (crypto g) (cookie_value cookie) pw in
             let! valid := validate g session in
             if negb valid then ret (Result.error ValidationFailed)
             else ret (Result.ok session))
            (ret (Result.error InvalidCookie))
      end
  end.

(** The attributes that [Session.save] passes to [cookieStore.set] *)
Definition save_options (expires : Value) (now : Z) : Obj :=
  {[ "maxAge" := js_sub expires now;
     "httpOnly" := VBool true;
     "sameSite" := VString "lax";
     "path" := VString "/" ]}.

(** [Session.save(session, cookieStore)] *)
Definition save (g : Globals) (session : loc) (cookieStore : ResponseCookies.t)
  : M unit :=
  match sessionSecret g with
  | None | Some EmptyString => throw (Error "kiyoi: session secret is not set")
  | Some pw =>
      let! sealed := Iron_seal (crypto g) session pw in
      let! expires := get_prop session "expires" in
      let! now := Date_now in
      call_set cookieStore sessionName sealed (save_options expires now)
  end.

(** [Session.destroy(cookieStore)] *)
Definition destroy (cookieStore : ResponseCookies.t) : M unit :=
  call_delete cookieStore sessionName.

(** The loop of [Session.create] over [extensions] *)
Fixpoint run_extensions (extensions : list SessionPlugin.t) (session : loc) : M loc :=
  match extensions with
  | [] => ret session
  | extension :: rest =>
      match SessionPlugin.create extension with
      | Some create_hook =>
          let! session' := create_hook session in run_extensions rest session'
      | None => run_extensions rest session
      end
  end.

(** [Session.create(sessionData, extensions)]: the object literal
    [{ id: Session.id(), ...sessionData }] lets the properties of
    [sessionData] win over [id]. *)
Definition create (sessionData : Obj) (extensions : list SessionPlugin.t) : M loc :=
  let! i := id in
  let! session := alloc (sessionData ∪ {[ "id" := VString i ]}) in
  run_extensions extensions session.

(** [Session.onValidate(fn)]: the new registry and the returned string *)
Definition onValidate (fn : Validator) (g : Globals) : M (Globals * string) :=
  let! i := nanoid in
  ret (set_validators (JsMap.set i fn (_validators g)) g, "v," +:+ i).

(** [Session.onTouch(fn)] *)
Definition onTouch (fn : Toucher) (g : Globals) : M (Globals * string) :=
  let! i := nanoid in
  ret (set_touchListeners (JsMap.set i fn (_touchListeners g)) g, "t," +:+ i).

(** [Session.removeListener(id)] *)
Definition removeListener (i : string) (g : Globals) : Globals :=
  if startsWith i "v," then
    set_validators (JsMap.delete (slice i 2) (_validators g)) g
  else if startsWith i "t," then
    set_touchListeners (JsMap.delete (slice i 2) (_touchListeners g)) g
  else g.

(** [Session.setCrypto(crypto)] *)
Definition setCrypto (c : Crypto) (g : Globals) : Globals := set_crypto c g.
End Session.
End Session.

(** ** The bundled plugins *)

Section Plugins.
Context {P : Platform}.

(** [expires(seconds)], for a whole number of seconds *)
Definition expires (seconds : Z) : SessionPlugin.t :=
  SessionPlugin.mk
    (Some (fun session =>
       let! now := Date_now in
       set_prop session "expires" (VNumber (now + seconds * 1000)) >>
       ret session))
    (Some (fun session =>
       let! e := get_prop session "expires" in
       let! now := Date_now in
       ret (js_gt e now)))
    None.

(** [idle(seconds)], for a whole number of seconds *)
Definition idle (seconds : Z) : SessionPlugin.t :=
  SessionPlugin.mk
    (Some (fun session =>
       let! now := Date_now in
       set_prop session "lastActive" (VNumber now) >>
       ret session))
    (Some (fun session =>
       let! a := get_prop session "lastActive" in
       let! now := Date_now in
       ret (js_gt (js_add a (seconds * 1000)) now)))
    (Some (fun session =>
       let! now := Date_now in
       set_prop session "lastActive" (VNumber now) >>
       ret session)).
End Plugins.

(** ** A concrete platform, on which the definitions run *)

#[global] Instance Value_countable : Countable Value.
Proof.
  refine (inj_countable'
    (fun v => match v with
              | VUndefined => inl (inl tt)
              | VNull => inl (inr tt)
              | VBool b => inr (inl b)
              | VNumber n => inr (inr (inl n))
              | VNaN => inr (inr (inr (inl tt)))
              | VString s => inr (inr (inr (inr s)))
              end)
    (fun x => match x with
              | inl (inl _) => VUndefined
              | inl (inr _) => VNull
              | inr (inl b) => VBool b
              | inr (inr (inl n)) => VNumber n
              | inr (inr (inr (inl _))) => VNaN
              | inr (inr (inr (inr s))) => VString s
              end) _).
  intros []; reflexivity.
Defined.

Module Demo.
(** Tokens are written with the two characters [0] and [1]. *)
Fixpoint bits_of (p : positive) : string :=
  match p with
  | xH => EmptyString
  | xO p' => String "0"%char (bits_of p')
  | xI p' => String "1"%char (bits_of p')
  end.

Fixpoint of_bits (s : string) : positive :=
  match s with
  | EmptyString => xH
  | String "0"%char s' => xO (of_bits s')
  | String _ s' => xI (of_bits s')
  end.

(** A sealed box that hides nothing: the token spells out the password,
    the draw and the object; it opens under the password it was sealed
    with and under no other. *)
Definition seal (_ : unit) (n : nat) (o : Obj) (pw : string) : completion string :=
  Normal (bits_of (encode (pw, n, o))).

Definition unseal (_ : unit) (tok pw : string) : completion Obj :=
  match decode (of_bits tok) : option (string * nat * Obj) with
  | Some (pw', _, o) =>
      if String.eqb pw' pw then Normal o else Throw (Error "Bad hmac value")
  | None => Throw (Error "Incorrect number of sealed components")
  end.

(** The [n]-th identifier is [n + 1] letters long. *)
Fixpoint nanoid_at (n : nat) : string :=
  match n with
  | O => "k"
  | S n' => String "k"%char (nanoid_at n')
  end.

(** Decimal numerals without sign; everything else converts to NaN. *)
Definition digit (a : ascii) : option Z :=
  let n := nat_of_ascii a in
  if (48 <=? n)%nat && (n <=? 57)%nat then Some (Z.of_nat (n - 48)) else None.

Fixpoint digits (acc : Z) (s : string) : option Z :=
  match s with
  | EmptyString => Some acc
  | String a s' =>
      match digit a with
      | Some d => digits (10 * acc + d) s'
      | None => None
      end
  end.

Definition StringToNumber (s : string) : option Z :=
  match s with
  | EmptyString => Some 0%Z
  | _ => digits 0 s
  end.

Definition platform : Platform :=
  Build_Platform unit nanoid_at seal unseal StringToNumber pretty.

#[local] Existing Instance platform.

Definition secret : string := "correct horse battery staple 0123456789".

(** A store with no object, no cookie, and a clock that starts at 1000 ms
    and gains 1 ms a read. Jar 0 holds the request's cookies, jar 1 the
    response's. *)
Definition store0 : Store :=
  mkStore [] ∅ (fun n => (1000 + Z.of_nat n)%Z) 0 0.

(** The module with the secret set and nothing registered. *)
Definition globals0 : Session.Globals :=
  Session.mkGlobals (Some secret) tt [] [].

(** A session made by [Session.create({ user: 'ann' }, [expires(3600)])]. *)
Definition data0 : Obj := {[ "user" := VString "ann" ]}.
Definition session0 : Obj :=
  <["expires" := VNumber 3601000]> (data0 ∪ {["id" := VString "k"]}).
Definition store1 : Store :=
  fst (Session.create data0 [expires 3600] store0).

(** What [Session.save] seals for it, and writes. *)
Definition token0 : string := bits_of (encode (secret, 1, session0)).
Definition options0 : Obj := Session.save_options (VNumber 3601000) 1001.

(** The store after saving the session to the response's cookies, and the
    store in which the request came with that cookie. *)
Definition store2 : Store :=
  fst (Session.save globals0 0 (cookies_of 1) store1).
Definition store_req : Store :=
  fst (Session.save globals0 0 (cookies_of 0) store1).

Definition request : NextRequest := {| req_cookies := cookies_of 0 |}.
Definition response : NextResponse := {| res_cookies := cookies_of 1 |}.

(** A validator that accepts, one that rejects, one that throws. *)
Definition accept : loc -> M bool := fun _ => ret true.
Definition reject : loc -> M bool := fun _ => ret false.
Definition broken : loc -> M bool := fun _ => throw (Error "validator failed").

(** A validator that stamps the session it is shown and accepts it. *)
Definition stamping : loc -> M bool :=
  fun session => set_prop session "seen" (VBool true) >> ret true.

(** A toucher that leaves its argument alone and returns a fresh copy of
    it with [lastActive] renewed: [s => ({ ...s, lastActive: Date.now() })]. *)
Definition replacing : loc -> M loc :=
  fun session =>
    let! o := deref session in
    let! now := Date_now in
    alloc (<["lastActive" := VNumber now]> o).

(** A plugin whose create hook blanks the identifier:
    [{ create(s) { s.id = ''; return s } }]. *)
Definition blanking : SessionPlugin.t :=
  SessionPlugin.mk
    (Some (fun session => set_prop session "id" (VString "") >> ret session))
    None None.

(** The hooks of the bundled plugins, taken out of the plugin objects. *)
Definition idle_touch : loc -> M loc :=
  default ret (SessionPlugin.touch (idle 60)).
Definition expires_validate : loc -> M bool :=
  default (fun _ => ret true) (SessionPlugin.validate (expires 0)).
End Demo.

(** ** The encryption helpers (crypto.ts) *)

(** [encrypt] takes any serialisable value, so the sealed box is taken here
    at a type [Data] of its own: [seal_data c n d pw] is
    [Iron.seal(c, d, pw, Iron.defaults)] at random draw [n] and
    [unseal_data c tok pw] is [Iron.unseal(c, tok, pw, Iron.defaults)]. *)
Module Encryption.
Section Encryption.
Context {P : Platform}.
Variable Data : Type.
Variable seal_data : Crypto -> nat -> Data -> string -> completion string.
Variable unseal_data : Crypto -> string -> string -> completion Data.

(** The module's two variables, [secret] and [crypto]. *)
Record Config : Type := mkConfig {
  secret : option string;
  crypto : Crypto }.

(** [setEncryptionSecret(pw)] *)
Definition setEncryptionSecret (pw : string) (c : Config) : Config :=
  mkConfig (Some pw) (crypto c).

(** [setEncryptionCrypto(c)] *)
Definition setEncryptionCrypto (cr : Crypto) (c : Config) : Config :=
  mkConfig (secret c) cr.

(** [encrypt(data)] *)
Definition encrypt (c : Config) (data : Data) : M string :=
  match secret c with
  | None | Some EmptyString => throw (Error "kiyoi: encryption secret is not set")
  | Some pw =>
      fun st => (set_rng (S (rng st)) st, seal_data (crypto c) (rng st) data pw)
  end.

(** [decrypt(data)] *)
Definition decrypt (c : Config) (data : string) : M Data :=
  match secret c with
  | None | Some EmptyString => throw (Error "kiyoi: encryption secret is not set")
  | Some pw => fun st => (st, unseal_data (crypto c) data pw)
  end.
End Encryption.
End Encryption.

(** ** A response's cookies that keep what they delete *)

(** The cookies object of a response in the host framework
    ([ResponseCookies] of [@edge-runtime/cookies], outside the repository)
    does not drop a cookie on [delete(name)]: it sets the cookie to the
    empty value with an expiry at the epoch, which tells the browser to
    drop it, and [get(name)] on the same object hands that cookie out.
    [expiring_cookies_of j attrs] is the cookies object of jar [j] with
    that [delete]; [attrs] stands for the other attributes the host gives
    the cookie (its [set] fills in defaults), and a date is written as its
    milliseconds since the epoch. The other four methods are those of
    [cookies_of j]. *)
Definition expiring_cookies_of (j : nat) (attrs : Obj) : ResponseCookies.t :=
  ResponseCookies.mk
    (ResponseCookies.get (cookies_of j))
    (ResponseCookies.getAll (cookies_of j))
    (ResponseCookies.has (cookies_of j))
    (ResponseCookies.set (cookies_of j))
    (fun n =>
       ResponseCookies.set (cookies_of j) n "" (<["expires" := VNumber 0]> attrs)).

(** ** Specifications in the spec's words *)

Section Properties.
Context {P : Platform}.

Import Session.

(** Every validator of [vs], run in order on [session] from store [st],
    returns [true]; [st'] is the store the last one leaves. *)
Inductive all_pass (session : loc) : list Validator -> Store -> Store -> Prop :=
  | all_pass_nil st : all_pass session [] st st
  | all_pass_cons v vs st st1 st2 :
      v session st = (st1, Normal true) ->
      all_pass session vs st1 st2 ->
      all_pass session (v :: vs) st st2.

(** Every toucher of [ts], run in order on [session] from [st], returns
    normally; [st'] is the store the last one leaves. *)
Inductive all_touched (session : loc) : list Toucher -> Store -> Store -> Prop :=
  | all_touched_nil st : all_touched session [] st st
  | all_touched_cons t ts st st1 st2 r :
      t session st = (st1, Normal r) ->
      all_touched session ts st1 st2 ->
      all_touched session (t :: ts) st st2.

(** A create hook that returns normally with an object whose [id] is the
    one of the object it was given. *)
Definition keeps_id (hook : loc -> M loc) : Prop :=
  forall l st o,
    heap st !! l = Some o ->
    exists st' l' o',
      hook l st = (st', Normal l')
      /\ heap st' !! l' = Some o'
      /\ o' !! "id" = o !! "id".

(** The hooks of [hs] all return when run in order, the first on
    [session] in the store [st] and each next one on the session that the
    one before returned, in the store it left; [session'] is what the last
    hook returned and [st'] the store it left. *)
Inductive threaded : list (loc -> M loc) -> loc -> Store -> loc -> Store -> Prop :=
  | threaded_nil session st : threaded [] session st session st
  | threaded_cons h hs session st session1 st1 session' st' :
      h session st = (st1, Normal session1) ->
      threaded hs session1 st1 session' st' ->
      threaded (h :: hs) session st session' st'.

(** ** The monad and the heap *)

Lemma bind_normal {A B} (m : M A) (k : A -> M B) st st1 a :
  m st = (st1, Normal a) -> bind m k st = k a st1.
Proof. intros H. unfold bind. now rewrite H. Qed.

Lemma bind_throw {A B} (m : M A) (k : A -> M B) st st1 e :
  m st = (st1, Throw e) -> bind m k st = (st1, Throw e).
Proof. intros H. unfold bind. now rewrite H. Qed.

Lemma deref_some l st o : heap st !! l = Some o -> deref l st = (st, Normal o).
Proof. intros H. unfold deref. now rewrite H. Qed.

Lemma get_prop_some l k st o :
  heap st !! l = Some o -> get_prop l k st = (st, Normal (prop o k)).
Proof. intros H. unfold get_prop. now rewrite (bind_normal _ _ _ _ _ (deref_some _ _ _ H)). Qed.

Lemma set_prop_some l k v st o :
  heap st !! l = Some o ->
  set_prop l k v st = (set_heap (<[l := <[k := v]> o]> (heap st)) st, Normal tt).
Proof. intros H. unfold set_prop. now rewrite (bind_normal _ _ _ _ _ (deref_some _ _ _ H)). Qed.

Lemma alloc_lookup o st :
  heap (fst (alloc o st)) !! length (heap st) = Some o.
Proof.
  simpl. rewrite lookup_app_r by lia. now rewrite Nat.sub_diag.
Qed.

(** ** The validator loop *)

Lemma run_validators_app vs1 vs2 session st :
  run_validators (vs1 ++ vs2) session st =
  match run_validators vs1 session st with
  | (st1, Normal true) => run_validators vs2 session st1
  | r => r
  end.
Proof.
  revert st. induction vs1 as [|v vs1 IH]; intros st; simpl; [reflexivity|].
  unfold bind. destruct (v session st) as [st1 [[|]|e]]; simpl; auto.
Qed.

Lemma run_validators_true vs session st st' :
  run_validators vs session st = (st', Normal true) <-> all_pass session vs st st'.
Proof.
  split.
  - revert st. induction vs as [|v vs IH]; intros st; simpl.
    + unfold ret. intros [= <-]. constructor.
    + unfold bind. destruct (v session st) as [st1 [[|]|e]] eqn:Hv; simpl; try discriminate.
      intros H. econstructor; eauto.
  - induction 1 as [|v vs st st1 st2 Hv _ IH]; simpl; [reflexivity|].
    rewrite (bind_normal _ _ _ _ _ Hv). simpl. exact IH.
Qed.

Lemma run_validators_false vs session st st' :
  run_validators vs session st = (st', Normal false) <->
  exists vs1 v vs2 st1,
    vs = vs1 ++ v :: vs2
    /\ all_pass session vs1 st st1
    /\ v session st1 = (st', Normal false).
Proof.
  split.
  - revert st. induction vs as [|v vs IH]; intros st; simpl.
    + discriminate.
    + unfold bind. destruct (v session st) as [st1 [[|]|e]] eqn:Hv; simpl; try discriminate.
      * intros H. destruct (IH _ H) as (vs1 & w & vs2 & st2 & -> & Hp & Hw).
        exists (v :: vs1), w, vs2, st2. split; [reflexivity|].
        split; [econstructor; eauto | exact Hw].
      * unfold ret. intros [= <-]. exists [], v, vs, st.
        split; [reflexivity|]. split; [constructor | exact Hv].
  - intros (vs1 & v & vs2 & st1 & -> & Hp & Hv).
    rewrite run_validators_app.
    apply run_validators_true in Hp. rewrite Hp. simpl.
    now rewrite (bind_normal _ _ _ _ _ Hv).
Qed.

Lemma run_validators_throw vs session st st' e :
  run_validators vs session st = (st', Throw e) <->
  exists vs1 v vs2 st1,
    vs = vs1 ++ v :: vs2
    /\ all_pass session vs1 st st1
    /\ v session st1 = (st', Throw e).
Proof.
  split.
  - revert st. induction vs as [|v vs IH]; intros st; simpl.
    + discriminate.
    + unfold bind. destruct (v session st) as [st1 [[|]|e']] eqn:Hv; simpl; try discriminate.
      * intros H. destruct (IH _ H) as (vs1 & w & vs2 & st2 & -> & Hp & Hw).
        exists (v :: vs1), w, vs2, st2. split; [reflexivity|].
        split; [econstructor; eauto | exact Hw].
      * intros [= <- <-]. exists [], v, vs, st.
        split; [reflexivity|]. split; [constructor | exact Hv].
  - intros (vs1 & v & vs2 & st1 & -> & Hp & Hv).
    rewrite run_validators_app.
    apply run_validators_true in Hp. rewrite Hp. simpl.
    now rewrite (bind_throw _ _ _ _ _ Hv).
Qed.

(** ** The toucher loop *)

Lemma run_touchers_normal ts session st st' u :
  run_touchers ts session st = (st', Normal u) <-> all_touched session ts st st'.
Proof.
  destruct u. split.
  - revert st. induction ts as [|t ts IH]; intros st; simpl.
    + unfold ret. intros [= <-]. constructor.
    + unfold bind. destruct (t session st) as [st1 [r|e]] eqn:Ht; try discriminate.
      intros H. econstructor; eauto.
  - induction 1 as [|t ts st st1 st2 r Ht _ IH]; simpl; [reflexivity|].
    now rewrite (bind_normal _ _ _ _ _ Ht).
Qed.

(** [touch] hands back the reference it was given, whatever the touchers
    returned. *)
Lemma touch_returns_argument g session st st' r :
  touch g session st = (st', Normal r) ->
  r = session /\ all_touched session (JsMap.values (_touchListeners g)) st st'.
Proof.
  unfold touch, bind.
  destruct (run_touchers _ session st) as [st1 [[]|e]] eqn:Hrun; try discriminate.
  unfold ret. intros [= <- <-]. split; [reflexivity|].
  now apply (run_touchers_normal _ _ _ _ tt).
Qed.

Lemma touch_all_touched g session st st' :
  all_touched session (JsMap.values (_touchListeners g)) st st' ->
  touch g session st = (st', Normal session).
Proof.
  intros H. apply (run_touchers_normal _ _ _ _ tt) in H.
  unfold touch. now rewrite (bind_normal _ _ _ _ _ H).
Qed.

(** ** Session.validate *)

(** C5. [Session.validate] returns [false] exactly when some registered
    validator returns [false] after all validators before it (in the
    registry's order) returned [true], and then the store is the one that
    validator left: the validators after it are not run, whatever they are.
    It returns [true] exactly when every registered validator, run in
    order, returns [true]; in particular when the registry is empty.
    The validate hooks of plugins play no part: [validate] reads the
    registry only, and the session that [create] builds depends on the
    create hooks of the plugins alone. *)
Theorem validate_spec (g : Globals) (session : loc) (st st' : Store) :
  (validate g session st = (st', Normal false) <->
     exists vs1 v vs2 st1,
       JsMap.values (_validators g) = vs1 ++ v :: vs2
       /\ all_pass session vs1 st st1
       /\ v session st1 = (st', Normal false))
  /\ (validate g session st = (st', Normal true) <->
        all_pass session (JsMap.values (_validators g)) st st')
  /\ (_validators g = [] -> validate g session st = (st, Normal true))
  /\ (forall sessionData extensions extensions' st0,
        map SessionPlugin.create extensions = map SessionPlugin.create extensions' ->
        create sessionData extensions st0 = create sessionData extensions' st0).
Proof.
  unfold validate. split; [apply run_validators_false|].
  split; [apply run_validators_true|].
  split; [intros ->; reflexivity|].
  intros d exts exts' st0 Hmap. unfold create.
  assert (Hrun : forall l s, run_extensions exts l s = run_extensions exts' l s).
  { revert exts' Hmap. induction exts as [|p exts IH]; intros [|p' exts'] Hmap l s;
      simpl in *; try discriminate; [reflexivity|].
    injection Hmap as Hp Hrest. rewrite Hp.
    destruct (SessionPlugin.create p') as [h|]; [|now apply IH].
    unfold bind. destruct (h l s) as [s1 [l1|e]]; [now apply IH | reflexivity]. }
  unfold bind. destruct (id st0) as [s1 [i|e]]; [|reflexivity].
  destruct (alloc _ s1) as [s2 [l|e]]; [apply Hrun | reflexivity].
Qed.

(** ** Session.touch with the idle plugin *)

(** C9. When the touch hook of [idle(seconds)] is the registered toucher,
    [Session.touch] returns the session it was given, whose [lastActive]
    is now the time that [Date.now()] gave during the call; every other
    property of the session, [id] and [expires] among them, and every
    other object are as before. *)
Theorem touch_idle (g : Globals) (seconds : Z) (k : string) (hook : Toucher)
    (session : loc) (o : Obj) (st : Store) :
  SessionPlugin.touch (idle seconds) = Some hook ->
  _touchListeners g = [(k, hook)] ->
  heap st !! session = Some o ->
  exists st' o',
    touch g session st = (st', Normal session)
    /\ heap st' !! session = Some o'
    /\ o' = <["lastActive" := VNumber (clock st (ticks st))]> o
    /\ prop o' "lastActive" = VNumber (clock st (ticks st))
    /\ prop o' "id" = prop o "id"
    /\ prop o' "expires" = prop o "expires"
    /\ (forall key, key <> "lastActive" -> o' !! key = o !! key)
    /\ (forall l, l <> session -> heap st' !! l = heap st !! l).
Proof.
  intros [= <-] Hreg Hs.
  exists (set_heap (<[session := <["lastActive" := VNumber (clock st (ticks st))]> o]> (heap st))
            (set_ticks (S (ticks st)) st)),
         (<["lastActive" := VNumber (clock st (ticks st))]> o).
  split.
  { unfold touch. rewrite Hreg. simpl. unfold bind at 1 2 3. unfold Date_now at 1.
    rewrite (bind_normal _ _ _ _ _ (set_prop_some session _ _ (set_ticks _ st) o Hs)).
    reflexivity. }
  split.
  { simpl. apply list_lookup_insert_eq. now apply lookup_lt_Some with o. }
  split; [reflexivity|].
  unfold prop.
  split; [now rewrite lookup_insert_eq|].
  split; [now rewrite lookup_insert_ne|].
  split; [now rewrite lookup_insert_ne|].
  split.
  - intros key Hk. now rewrite lookup_insert_ne.
  - intros l Hl. simpl. now rewrite list_lookup_insert_ne.
Qed.

(** ** The registries *)

Lemma JsMap_delete_absent {V} (k : string) (m : JsMap.t V) :
  k ∉ JsMap.keys m -> JsMap.delete k m = m.
Proof.
  induction m as [|[k' v'] m IH]; simpl; [reflexivity|].
  intros Hk. apply not_elem_of_cons in Hk as [Hne Hk].
  destruct (String.eqb_spec k k') as [->|_]; [contradiction|].
  now rewrite IH.
Qed.

Lemma JsMap_delete_set_fresh {V} (k : string) (v : V) (m : JsMap.t V) :
  k ∉ JsMap.keys m -> JsMap.delete k (JsMap.set k v m) = m.
Proof.
  induction m as [|[k' v'] m IH]; simpl.
  - intros _. now rewrite String.eqb_refl.
  - intros Hk. apply not_elem_of_cons in Hk as [Hne Hk].
    destruct (String.eqb_spec k k') as [->|_]; [contradiction|].
    simpl. destruct (String.eqb_spec k k') as [->|_]; [contradiction|].
    now rewrite IH.
Qed.

Lemma JsMap_values_set_fresh {V} (k : string) (v : V) (m : JsMap.t V) :
  k ∉ JsMap.keys m -> JsMap.values (JsMap.set k v m) = JsMap.values m ++ [v].
Proof.
  induction m as [|[k' v'] m IH]; simpl; [reflexivity|].
  intros Hk. apply not_elem_of_cons in Hk as [Hne Hk].
  destruct (String.eqb_spec k k') as [->|_]; [contradiction|].
  simpl. f_equal. now apply IH.
Qed.

Lemma startsWith_inv (s : string) (a b : ascii) :
  startsWith s (String a (String b EmptyString)) = true ->
  s = String a (String b (slice s 2)).
Proof.
  unfold startsWith. destruct s as [|a' [|b' s]]; simpl; try discriminate.
  - destruct (ascii_dec a a'); discriminate.
  - destruct (ascii_dec a a') as [->|]; [|discriminate].
    destruct (ascii_dec b b') as [->|]; [|discriminate].
    reflexivity.
Qed.

Lemma startsWith_prefixed (a b : ascii) (s : string) :
  startsWith (String a (String b s)) (String a (String b EmptyString)) = true.
Proof.
  unfold startsWith. simpl.
  destruct (ascii_dec a a); [|contradiction].
  destruct (ascii_dec b b); [now destruct s | contradiction].
Qed.

(** C6. When the identifier that [onValidate] draws is not yet a key of
    the validator registry (the generator does not repeat itself),
    [onValidate(fn)] appends [fn] to the registry and returns the
    identifier behind the prefix [v,]; [removeListener] of that string
    brings back the module state as it was before the registration, so
    [validate] runs as before. [removeListener] of a string that is
    neither [v,] followed by a validator key nor [t,] followed by a
    toucher key leaves both registries as they are. *)
Theorem onValidate_removeListener (g : Globals) (fn : Validator) (st : Store) :
  (nanoid_at (rng st) ∉ JsMap.keys (_validators g) ->
     exists st' g' i,
       onValidate fn g st = (st', Normal (g', i))
       /\ i = "v," +:+ nanoid_at (rng st)
       /\ JsMap.values (_validators g') = JsMap.values (_validators g) ++ [fn]
       /\ _touchListeners g' = _touchListeners g
       /\ removeListener i g' = g
       /\ (forall session s,
             validate (removeListener i g') session s = validate g session s))
  /\ (forall j,
        (forall k, j = "v," +:+ k -> k ∉ JsMap.keys (_validators g)) ->
        (forall k, j = "t," +:+ k -> k ∉ JsMap.keys (_touchListeners g)) ->
        removeListener j g = g).
Proof.
  split.
  - intros Hfresh.
    assert (Hback :
      removeListener ("v," +:+ nanoid_at (rng st))
        (set_validators (JsMap.set (nanoid_at (rng st)) fn (_validators g)) g) = g).
    { unfold removeListener.
      change ("v," +:+ nanoid_at (rng st))
        with (String "v" (String "," (nanoid_at (rng st)))).
      rewrite startsWith_prefixed. simpl slice. simpl _validators.
      rewrite JsMap_delete_set_fresh by exact Hfresh.
      now destruct g. }
    eexists _, _, _. split; [reflexivity|].
    split; [reflexivity|].
    split; [now apply JsMap_values_set_fresh|].
    split; [reflexivity|].
    split; [exact Hback|].
    intros session s. now rewrite Hback.
  - intros j Hv Ht. unfold removeListener.
    destruct (startsWith j "v,") eqn:Ev.
    + apply startsWith_inv in Ev.
      rewrite JsMap_delete_absent by (apply Hv; exact Ev).
      now destruct g.
    + destruct (startsWith j "t,") eqn:Et; [|reflexivity].
      apply startsWith_inv in Et.
      rewrite JsMap_delete_absent by (apply Ht; exact Et).
      now destruct g.
Qed.

(** ** Session.get *)

Lemma secret_unset_false g :
  secret_unset g = false <->
  exists a pw, sessionSecret g = Some (String a pw).
Proof.
  unfold secret_unset. destruct (sessionSecret g) as [[|a pw]|]; split;
    try discriminate; eauto; intros (a' & pw' & H); discriminate.
Qed.

(** C1. [Session.get] throws exactly when [!sessionSecret] holds (the
    secret is [undefined] or the empty string), and then it throws the
    configuration error and leaves the store alone. Otherwise it returns a
    [Result]: [NoCookie] exactly when the store has no session cookie;
    with a cookie, [InvalidCookie] when unsealing throws,
    [ValidationFailed] when [validate] returns [false] on the unsealed
    session, success with that session when [validate] returns [true]
    (and [InvalidCookie] again when [validate] throws). *)
Theorem get_outcomes (g : Globals) (cookieStore : GetCookieStore) (st : Store) :
  (forall st' e,
      get g cookieStore st = (st', Throw e) <->
      secret_unset g = true /\ st' = st
      /\ e = Error "kiyoi: session secret is not set")
  /\ (secret_unset g = false ->
      exists st' r,
        get g cookieStore st = (st', Normal r)
        /\ (r = Result.error NoCookie <->
            store_get cookieStore sessionName st = None)
        /\ (forall pw cookie,
              sessionSecret g = Some pw ->
              store_get cookieStore sessionName st = Some cookie ->
              match unseal (crypto g) (cookie_value cookie) pw with
              | Throw _ => r = Result.error InvalidCookie /\ st' = st
              | Normal o =>
                  let session := length (heap st) in
                  match validate g session (set_heap (heap st ++ [o]) st) with
                  | (st2, Normal true) => r = Result.ok session /\ st' = st2
                  | (st2, Normal false) =>
                      r = Result.error ValidationFailed /\ st' = st2
                  | (st2, Throw _) => r = Result.error InvalidCookie /\ st' = st2
                  end
              end)).
Proof.
  unfold get, secret_unset.
  destruct (sessionSecret g) as [[|a pw]|] eqn:Hs.
  - split; [|discriminate]. intros st' e. unfold throw. split.
    + intros [= <- <-]. auto.
    + intros (_ & -> & ->). reflexivity.
  - split.
    { intros st' e. split; [|intros (? & _); discriminate].
      unfold bind, call_get, try_catch, Iron_unseal.
      destruct (store_get cookieStore sessionName st) as [c|]; [|discriminate].
      destruct (unseal (crypto g) (cookie_value c) (String a pw)) as [o|e'];
        [|discriminate].
      unfold alloc.
      destruct (validate g _ _) as [st2 [[|]|e']]; discriminate. }
    intros _. unfold bind, call_get, try_catch, Iron_unseal.
    destruct (store_get cookieStore sessionName st) as [c|] eqn:Hc.
    + destruct (unseal (crypto g) (cookie_value c) (String a pw)) as [o|e'] eqn:Hu.
      * unfold alloc.
        destruct (validate g _ _) as [st2 [[|]|e']] eqn:Hv; simpl;
          eexists _, _; (split; [reflexivity|]);
          (split; [split; discriminate|]);
          intros pw' c' [= <-] [= <-]; rewrite Hu; simpl; rewrite Hv; auto.
      * eexists _, _. split; [reflexivity|].
        split; [split; discriminate|].
        intros pw' c' [= <-] [= <-]. rewrite Hu. auto.
    + eexists _, _. split; [reflexivity|].
      split; [split; reflexivity|].
      intros pw' c' _ [=].
  - split; [|discriminate]. intros st' e. unfold throw. split.
    + intros [= <- <-]. auto.
    + intros (_ & -> & ->). reflexivity.
Qed.

(** C10. With the secret set and a session cookie that unseals, if a
    registered validator throws on the unsealed session (those before it
    having returned [true]), [Session.get] neither throws nor returns
    [ValidationFailed]: it returns the [InvalidCookie] error. *)
Theorem get_validator_throws (g : Globals) (cookieStore : GetCookieStore)
    (st : Store) (pw : string) (cookie : Cookie) (o : Obj)
    (vs1 : list Validator) (v : Validator) (vs2 : list Validator)
    (st1 st2 : Store) (e : Exn) :
  sessionSecret g = Some pw ->
  secret_unset g = false ->
  store_get cookieStore sessionName st = Some cookie ->
  unseal (crypto g) (cookie_value cookie) pw = Normal o ->
  JsMap.values (_validators g) = vs1 ++ v :: vs2 ->
  all_pass (length (heap st)) vs1 (set_heap (heap st ++ [o]) st) st1 ->
  v (length (heap st)) st1 = (st2, Throw e) ->
  get g cookieStore st = (st2, Normal (Result.error InvalidCookie)).
Proof.
  intros Hs Hset Hc Hu Hvs Hpass Hv.
  assert (Hval : validate g (length (heap st)) (set_heap (heap st ++ [o]) st)
                 = (st2, Throw e)).
  { unfold validate. apply run_validators_throw. eauto 10. }
  unfold get. unfold secret_unset in Hset. rewrite Hs in *.
  destruct pw as [|a pw]; [discriminate|].
  unfold bind, call_get, try_catch, Iron_unseal. rewrite Hc, Hu.
  unfold alloc. now rewrite Hval.
Qed.

(** ** The cookies object of a jar *)

Lemma cookies_of_get_set j n v o st :
  ResponseCookies.get (cookies_of j) n (ResponseCookies.set (cookies_of j) n v o st)
  = Some (mkCookie n v o).
Proof.
  simpl. rewrite lookup_total_insert_eq. apply lookup_insert_eq.
Qed.

Lemma cookies_of_get_delete j n st :
  ResponseCookies.get (cookies_of j) n (ResponseCookies.delete (cookies_of j) n st)
  = None.
Proof.
  simpl. rewrite lookup_total_alter_eq.
  destruct (jars st !! j) as [jar|]; simpl; [apply lookup_delete_eq | apply lookup_empty].
Qed.

Lemma cookies_of_get_delete_ne j n n' st :
  n' <> n ->
  ResponseCookies.get (cookies_of j) n' (ResponseCookies.delete (cookies_of j) n st)
  = ResponseCookies.get (cookies_of j) n' st.
Proof.
  intros Hn. simpl. rewrite lookup_total_alter_eq, lookup_total_alt.
  destruct (jars st !! j) as [jar|]; simpl; [|reflexivity].
  apply lookup_delete_ne. congruence.
Qed.

Lemma cookies_of_delete_absent j n st :
  ResponseCookies.get (cookies_of j) n st = None ->
  ResponseCookies.delete (cookies_of j) n st = st.
Proof.
  simpl. rewrite lookup_total_alt. intros Hget.
  assert (Hjars : alter (delete n) j (jars st) = jars st).
  { apply alter_id. intros jar Hj. rewrite Hj in Hget. now apply delete_id. }
  rewrite Hjars. now destruct st.
Qed.

(** ** Session.save *)

Lemma save_options_lookup (v : Value) (now : Z) (key : string) :
  save_options v now !! key =
    if String.eqb key "maxAge" then Some (js_sub v now)
    else if String.eqb key "httpOnly" then Some (VBool true)
    else if String.eqb key "sameSite" then Some (VString "lax")
    else if String.eqb key "path" then Some (VString "/")
    else None.
Proof.
  unfold save_options.
  destruct (String.eqb_spec key "maxAge") as [->|H1]; [apply lookup_insert_eq|].
  rewrite lookup_insert_ne by congruence.
  destruct (String.eqb_spec key "httpOnly") as [->|H2]; [apply lookup_insert_eq|].
  rewrite lookup_insert_ne by congruence.
  destruct (String.eqb_spec key "sameSite") as [->|H3]; [apply lookup_insert_eq|].
  rewrite lookup_insert_ne by congruence.
  destruct (String.eqb_spec key "path") as [->|H4]; [apply lookup_singleton_eq|].
  apply lookup_singleton_ne. congruence.
Qed.

Lemma save_run g session cookieStore st pw o sealed :
  sessionSecret g = Some pw ->
  secret_unset g = false ->
  heap st !! session = Some o ->
  seal (crypto g) (rng st) o pw = Normal sealed ->
  save g session cookieStore st
  = (ResponseCookies.set cookieStore "session" sealed
       (save_options (prop o "expires") (clock st (ticks st)))
       (set_ticks (S (ticks st)) (set_rng (S (rng st)) st)),
     Normal tt).
Proof.
  intros Hs Hset Ho Hseal.
  unfold save. unfold secret_unset in Hset. rewrite Hs in *.
  destruct pw as [|a pw]; [discriminate|].
  unfold bind, Iron_seal, get_prop, bind, deref.
  rewrite Ho, Hseal. simpl. rewrite Ho. reflexivity.
Qed.

(** A [save] that returned has sealed the object behind [session]. *)
Lemma save_inv g session cookieStore st st' pw o u :
  sessionSecret g = Some pw ->
  heap st !! session = Some o ->
  save g session cookieStore st = (st', Normal u) ->
  secret_unset g = false
  /\ exists sealed,
       seal (crypto g) (rng st) o pw = Normal sealed
       /\ st' = ResponseCookies.set cookieStore "session" sealed
                  (save_options (prop o "expires") (clock st (ticks st)))
                  (set_ticks (S (ticks st)) (set_rng (S (rng st)) st)).
Proof.
  intros Hs Ho. unfold save, secret_unset. rewrite Hs.
  destruct pw as [|a pw]; [discriminate|].
  unfold bind, Iron_seal, get_prop, bind, deref. rewrite Ho.
  destruct (seal (crypto g) (rng st) o (String a pw)) as [sealed|e] eqn:Hseal;
    [|discriminate].
  simpl. rewrite Ho. unfold call_set. intros [= <-].
  split; [reflexivity|]. exists sealed. split; reflexivity.
Qed.

(** C7. With the secret not set, [Session.save] throws the configuration
    error and writes nothing. With the secret set, a session object [o]
    and a token [sealed] that [Iron.seal] returns for it, [save] makes one
    call [cookieStore.set("session", sealed, options)], where [options]
    has the four properties [maxAge = o.expires - Date.now()] (the
    difference of the two numbers when [expires] is a number),
    [httpOnly = true], [sameSite = "lax"], [path = "/"] and no other; on
    the cookies object of a jar the cookie read back is that one. *)
Theorem save_writes_cookie (g : Globals) (session : loc)
    (cookieStore : ResponseCookies.t) (st : Store) :
  (secret_unset g = true ->
     save g session cookieStore st
     = (st, Throw (Error "kiyoi: session secret is not set")))
  /\ (forall pw o sealed,
        sessionSecret g = Some pw ->
        secret_unset g = false ->
        heap st !! session = Some o ->
        seal (crypto g) (rng st) o pw = Normal sealed ->
        let now := clock st (ticks st) in
        let options := save_options (prop o "expires") now in
        let st1 := set_ticks (S (ticks st)) (set_rng (S (rng st)) st) in
        save g session cookieStore st
        = (ResponseCookies.set cookieStore "session" sealed options st1, Normal tt)
        /\ options !! "maxAge" = Some (js_sub (prop o "expires") now)
        /\ (forall e, prop o "expires" = VNumber e ->
              options !! "maxAge" = Some (VNumber (e - now)))
        /\ options !! "httpOnly" = Some (VBool true)
        /\ options !! "sameSite" = Some (VString "lax")
        /\ options !! "path" = Some (VString "/")
        /\ (forall key,
              key ∉ ["maxAge"; "httpOnly"; "sameSite"; "path"] ->
              options !! key = None)
        /\ (forall j,
              cookieStore = cookies_of j ->
              ResponseCookies.get cookieStore "session"
                (fst (save g session cookieStore st))
              = Some (mkCookie "session" sealed options))).
Proof.
  split.
  - unfold save, secret_unset.
    destruct (sessionSecret g) as [[|a pw]|]; try discriminate; reflexivity.
  - intros pw o sealed Hs Hset Ho Hseal now options st1.
    assert (Hsave : save g session cookieStore st
              = (ResponseCookies.set cookieStore "session" sealed options st1, Normal tt)).
    { now apply save_run with pw. }
    split; [exact Hsave|].
    split; [now (subst options; rewrite save_options_lookup)|].
    split.
    { intros e He. subst options. rewrite save_options_lookup, He. reflexivity. }
    split; [now (subst options; rewrite save_options_lookup)|].
    split; [now (subst options; rewrite save_options_lookup)|].
    split; [now (subst options; rewrite save_options_lookup)|].
    split.
    { intros key Hkey. subst options. rewrite save_options_lookup.
      repeat (apply not_elem_of_cons in Hkey as [? Hkey]).
      destruct (String.eqb_spec key "maxAge"); [contradiction|].
      destruct (String.eqb_spec key "httpOnly"); [contradiction|].
      destruct (String.eqb_spec key "sameSite"); [contradiction|].
      destruct (String.eqb_spec key "path"); [contradiction|].
      reflexivity. }
    intros j ->. rewrite Hsave. cbn [fst].
    apply cookies_of_get_set.
Qed.

(** ** Session.create *)

Lemma run_extensions_keeps_id extensions :
  Forall (fun p => forall h, SessionPlugin.create p = Some h -> keeps_id h)
         extensions ->
  forall l st o,
    heap st !! l = Some o ->
    exists st' l' o',
      run_extensions extensions l st = (st', Normal l')
      /\ heap st' !! l' = Some o'
      /\ o' !! "id" = o !! "id".
Proof.
  induction 1 as [|p ps Hp _ IH]; intros l st o Ho; simpl.
  - exists st, l, o. auto.
  - destruct (SessionPlugin.create p) as [h|] eqn:Hh; [|now apply IH].
    destruct (Hp h eq_refl l st o Ho) as (st1 & l1 & o1 & Hrun & Ho1 & Hid).
    rewrite (bind_normal _ _ _ _ _ Hrun).
    destruct (IH l1 st1 o1 Ho1) as (st2 & l2 & o2 & Hrun2 & Ho2 & Hid2).
    exists st2, l2, o2. split; [exact Hrun2|]. split; [exact Ho2|]. congruence.
Qed.

Lemma set_prop_keeps_id (k : string) (v : Z -> Value) :
  k <> "id" ->
  keeps_id (fun session =>
              let! now := Date_now in
              set_prop session k (v now) >> ret session).
Proof.
  intros Hk l st o Ho.
  eexists _, l, (<[k := v (clock st (ticks st))]> o).
  split.
  { unfold bind at 1. unfold Date_now at 1.
    rewrite (bind_normal _ _ _ _ _
               (set_prop_some l k _ (set_ticks (S (ticks st)) st) o Ho)).
    reflexivity. }
  split.
  - simpl. apply list_lookup_insert_eq. now apply lookup_lt_Some with o.
  - now rewrite lookup_insert_ne.
Qed.

(** The create hooks of the bundled plugins keep the identifier. *)
Lemma expires_keeps_id seconds h :
  SessionPlugin.create (expires seconds) = Some h -> keeps_id h.
Proof.
  intros [= <-].
  apply (set_prop_keeps_id "expires" (fun now => VNumber (now + seconds * 1000))).
  discriminate.
Qed.

Lemma idle_keeps_id seconds h :
  SessionPlugin.create (idle seconds) = Some h -> keeps_id h.
Proof.
  intros [= <-]. apply (set_prop_keeps_id "lastActive" VNumber). discriminate.
Qed.

(** C3, amended. For session data without an [id] property and plugins
    whose create hooks return normally and keep the [id] of the object
    they are given (the hooks of [expires] and [idle] do),
    [Session.create] returns a session whose [id] is the string that
    [nanoid()] generated during the call: it is not empty when the
    generated string is not, and a repeated call, for which the generator
    yields another string, returns a session with another [id]. *)
Theorem create_id (sessionData : Obj) (extensions : list SessionPlugin.t)
    (st : Store) :
  sessionData !! "id" = None ->
  Forall (fun p => forall h, SessionPlugin.create p = Some h -> keeps_id h)
         extensions ->
  exists st' session o,
    create sessionData extensions st = (st', Normal session)
    /\ heap st' !! session = Some o
    /\ prop o "id" = VString (nanoid_at (rng st))
    /\ (nanoid_at (rng st) <> "" -> prop o "id" <> VString "")
    /\ (forall st2 st2' session2 o2,
          nanoid_at (rng st2) <> nanoid_at (rng st) ->
          create sessionData extensions st2 = (st2', Normal session2) ->
          heap st2' !! session2 = Some o2 ->
          prop o2 "id" <> prop o "id").
Proof.
  intros Hd Hexts.
  assert (Hcreate : forall s, exists s' l o,
             create sessionData extensions s = (s', Normal l)
             /\ heap s' !! l = Some o
             /\ prop o "id" = VString (nanoid_at (rng s))).
  { intros s. unfold create, id.
    unfold bind at 1. unfold nanoid at 1.
    unfold bind at 1. unfold alloc at 1.
    set (o0 := sessionData ∪ {["id" := VString (nanoid_at (rng s))]}).
    set (s1 := set_heap _ _).
    assert (Ho0 : heap s1 !! length (heap s) = Some o0).
    { subst s1. simpl. rewrite lookup_app_r by lia. now rewrite Nat.sub_diag. }
    destruct (run_extensions_keeps_id extensions Hexts _ _ _ Ho0)
      as (s' & l & o & Hrun & Ho & Hid).
    exists s', l, o. split; [exact Hrun|]. split; [exact Ho|].
    unfold prop. rewrite Hid. subst o0.
    rewrite lookup_union_r by exact Hd. now rewrite lookup_singleton_eq. }
  destruct (Hcreate st) as (st' & session & o & Hrun & Ho & Hid).
  exists st', session, o.
  split; [exact Hrun|]. split; [exact Ho|]. split; [exact Hid|].
  split.
  - intros Hne. rewrite Hid. congruence.
  - intros st2 st2' session2 o2 Hne Hrun2 Ho2.
    destruct (Hcreate st2) as (s' & l & o' & Hrun' & Ho' & Hid').
    rewrite Hrun2 in Hrun'. injection Hrun' as <- <-.
    rewrite Ho2 in Ho'. injection Ho' as <-.
    rewrite Hid, Hid'. congruence.
Qed.

(** ** save, then get *)

Lemma create_expires sessionData seconds st :
  let o := <["expires" := VNumber (clock st (ticks st) + seconds * 1000)]>
             (sessionData ∪ {["id" := VString (nanoid_at (rng st))]}) in
  exists st',
    create sessionData [expires seconds] st = (st', Normal (length (heap st)))
    /\ heap st' !! length (heap st) = Some o.
Proof.
  intros o. eexists. split.
  - unfold create, id.
    unfold bind at 1. unfold nanoid at 1.
    unfold bind at 1. unfold alloc at 1.
    simpl run_extensions.
    unfold bind at 1. unfold bind at 1. unfold Date_now at 1.
    erewrite (bind_normal _ _ _ _ _ (set_prop_some _ "expires" _ _ _ _)).
    + reflexivity.
  - simpl. apply list_lookup_insert_eq. rewrite length_app. simpl. lia.
  Unshelve.
  simpl. rewrite lookup_app_r by lia. now rewrite Nat.sub_diag.
Qed.

(** C2, amended. Let the cookie store read back what it was told to set
    (the cookies object of a jar does; a [mergeCookies] store does not),
    let unsealing invert sealing under the secret, take a session created
    with the [expires] plugin and save it. If the registered validators
    accept the unsealed session and leave it as it was, the [Session.get]
    that follows returns success with a new object that has the
    properties of the saved one, [id] and [expires] included. *)
Theorem save_then_get (g : Globals) (cookieStore : ResponseCookies.t)
    (sessionData : Obj) (seconds : Z) (pw : string)
    (st0 st1 st2 st3 : Store) (session : loc) :
  sessionSecret g = Some pw ->
  (forall n o tok,
      seal (crypto g) n o pw = Normal tok -> unseal (crypto g) tok pw = Normal o) ->
  (forall v opts s,
      cookie_value <$>
        ResponseCookies.get cookieStore "session"
          (ResponseCookies.set cookieStore "session" v opts s)
      = Some v) ->
  create sessionData [expires seconds] st0 = (st1, Normal session) ->
  save g session cookieStore st1 = (st2, Normal tt) ->
  let o := <["expires" := VNumber (clock st0 (ticks st0) + seconds * 1000)]>
             (sessionData ∪ {["id" := VString (nanoid_at (rng st0))]}) in
  let copy := length (heap st2) in
  validate g copy (set_heap (heap st2 ++ [o]) st2) = (st3, Normal true) ->
  heap st3 !! copy = heap (set_heap (heap st2 ++ [o]) st2) !! copy ->
  get g cookieStore st2 = (st3, Normal (Result.ok copy))
  /\ heap st1 !! session = Some o
  /\ heap st3 !! copy = Some o
  /\ prop o "expires" = VNumber (clock st0 (ticks st0) + seconds * 1000).
Proof.
  intros Hs Hinv Hstore Hcreate Hsave o copy Hval Hkept.
  destruct (create_expires sessionData seconds st0) as (st1' & Hc & Ho).
  rewrite Hcreate in Hc. injection Hc as <- ->.
  fold o in Ho.
  destruct (save_inv _ _ _ _ _ _ _ _ Hs Ho Hsave) as (Hset & sealed & Hseal & Hst2).
  assert (Hcopy : heap (set_heap (heap st2 ++ [o]) st2) !! copy = Some o).
  { simpl. subst copy. rewrite lookup_app_r by lia. now rewrite Nat.sub_diag. }
  split; [|split; [exact Ho | split; [congruence|]]].
  - apply secret_unset_false in Hset as (a & pw' & Hpw).
    rewrite Hs in Hpw. injection Hpw as ->.
    unfold get. rewrite Hs. unfold bind at 1. unfold call_get.
    change (store_get (as_GetCookieStore cookieStore) sessionName st2)
      with (ResponseCookies.get cookieStore "session" st2).
    specialize (Hstore sealed
                  (save_options (prop o "expires") (clock st1 (ticks st1)))
                  (set_ticks (S (ticks st1)) (set_rng (S (rng st1)) st1))).
    rewrite <- Hst2 in Hstore.
    destruct (ResponseCookies.get cookieStore "session" st2) as [c|];
      [|discriminate].
    simpl in Hstore. injection Hstore as Hvalue.
    unfold try_catch, bind, Iron_unseal.
    rewrite Hvalue, (Hinv _ _ _ Hseal). unfold alloc.
    fold copy. rewrite Hval. reflexivity.
  - subst o. unfold prop. now rewrite lookup_insert_eq.
Qed.

(** ** Further properties of the registries *)

Lemma JsMap_delete_middle {V} (k : string) (v : V) (m1 m2 : JsMap.t V) :
  k ∉ JsMap.keys m1 -> JsMap.delete k (m1 ++ (k, v) :: m2) = m1 ++ m2.
Proof.
  induction m1 as [|[k' v'] m1 IH]; simpl.
  - intros _. now rewrite String.eqb_refl.
  - intros Hk. apply not_elem_of_cons in Hk as [Hne Hk].
    destruct (String.eqb_spec k k') as [->|_]; [contradiction|].
    now rewrite IH.
Qed.

Lemma startsWith_other (a b c : ascii) (s : string) :
  a <> c -> startsWith (String a (String b s)) (String c (String b EmptyString)) = false.
Proof.
  intros Hne. unfold startsWith. simpl.
  destruct (ascii_dec c a) as [->|_]; [contradiction | reflexivity].
Qed.

(** X1. When the identifier that [onTouch] draws is not yet a key of the
    toucher registry, [onTouch(fn)] makes one random draw, appends [fn]
    after the touchers already registered, leaves the validators alone and
    returns the identifier behind the prefix [t,]; [removeListener] of that
    string brings back the module state as it was, so [touch] runs as
    before the registration. *)
Theorem onTouch_removeListener (g : Globals) (fn : Toucher) (st : Store) :
  nanoid_at (rng st) ∉ JsMap.keys (_touchListeners g) ->
  exists g' i,
    onTouch fn g st = (set_rng (S (rng st)) st, Normal (g', i))
    /\ i = "t," +:+ nanoid_at (rng st)
    /\ JsMap.values (_touchListeners g') = JsMap.values (_touchListeners g) ++ [fn]
    /\ _validators g' = _validators g
    /\ removeListener i g' = g
    /\ (forall session s, touch (removeListener i g') session s = touch g session s).
Proof.
  intros Hfresh.
  assert (Hback :
    removeListener ("t," +:+ nanoid_at (rng st))
      (set_touchListeners (JsMap.set (nanoid_at (rng st)) fn (_touchListeners g)) g)
    = g).
  { unfold removeListener.
    change ("t," +:+ nanoid_at (rng st))
      with (String "t" (String "," (nanoid_at (rng st)))).
    rewrite startsWith_other by discriminate.
    rewrite startsWith_prefixed. simpl slice. simpl _touchListeners.
    rewrite JsMap_delete_set_fresh by exact Hfresh.
    now destruct g. }
  eexists _, _. split; [reflexivity|].
  split; [reflexivity|].
  split; [now apply JsMap_values_set_fresh|].
  split; [reflexivity|].
  split; [exact Hback|].
  intros session s. now rewrite Hback.
Qed.

(** X2. [removeListener] goes by the prefix of its argument. On [v,] and a
    key of the validator registry it takes out the validator under that
    key and nothing else: the other validators stay, in their order, and
    the toucher registry is as it was, even if it has an entry under the
    same key. On [t,] and a key of the toucher registry it does the same to
    the touchers and leaves the validators alone. *)
Theorem removeListener_by_prefix (g : Globals) (k : string) :
  (forall fn m1 m2,
      _validators g = m1 ++ (k, fn) :: m2 ->
      k ∉ JsMap.keys m1 ->
      removeListener ("v," +:+ k) g = set_validators (m1 ++ m2) g
      /\ JsMap.values (_validators (removeListener ("v," +:+ k) g))
         = JsMap.values m1 ++ JsMap.values m2
      /\ _touchListeners (removeListener ("v," +:+ k) g) = _touchListeners g)
  /\ (forall fn m1 m2,
        _touchListeners g = m1 ++ (k, fn) :: m2 ->
        k ∉ JsMap.keys m1 ->
        removeListener ("t," +:+ k) g = set_touchListeners (m1 ++ m2) g
        /\ JsMap.values (_touchListeners (removeListener ("t," +:+ k) g))
           = JsMap.values m1 ++ JsMap.values m2
        /\ _validators (removeListener ("t," +:+ k) g) = _validators g).
Proof.
  split; intros fn m1 m2 Hreg Hk.
  - assert (Heq : removeListener ("v," +:+ k) g = set_validators (m1 ++ m2) g).
    { unfold removeListener.
      change ("v," +:+ k) with (String "v" (String "," k)).
      rewrite startsWith_prefixed. simpl slice.
      now rewrite Hreg, JsMap_delete_middle. }
    split; [exact Heq|]. rewrite Heq. simpl.
    split; [|reflexivity]. unfold JsMap.values. apply map_app.
  - assert (Heq : removeListener ("t," +:+ k) g = set_touchListeners (m1 ++ m2) g).
    { unfold removeListener.
      change ("t," +:+ k) with (String "t" (String "," k)).
      rewrite startsWith_other by discriminate.
      rewrite startsWith_prefixed. simpl slice.
      now rewrite Hreg, JsMap_delete_middle. }
    split; [exact Heq|]. rewrite Heq. simpl.
    split; [|reflexivity]. unfold JsMap.values. apply map_app.
Qed.

(** ** Exceptions in the two loops *)

Lemma run_touchers_app ts1 ts2 session st :
  run_touchers (ts1 ++ ts2) session st =
  match run_touchers ts1 session st with
  | (st1, Normal _) => run_touchers ts2 session st1
  | r => r
  end.
Proof.
  revert st. induction ts1 as [|t ts1 IH]; intros st; simpl; [reflexivity|].
  unfold bind. destruct (t session st) as [st1 [r|e]]; simpl; auto.
Qed.

Lemma run_touchers_throw ts session st st' e :
  run_touchers ts session st = (st', Throw e) <->
  exists ts1 t ts2 st1,
    ts = ts1 ++ t :: ts2
    /\ all_touched session ts1 st st1
    /\ t session st1 = (st', Throw e).
Proof.
  split.
  - revert st. induction ts as [|t ts IH]; intros st; simpl.
    + discriminate.
    + unfold bind. destruct (t session st) as [st1 [r|e']] eqn:Ht.
      * intros H. destruct (IH _ H) as (ts1 & w & ts2 & st2 & -> & Hp & Hw).
        exists (t :: ts1), w, ts2, st2. split; [reflexivity|].
        split; [econstructor; eauto | exact Hw].
      * intros [= <- <-]. exists [], t, ts, st.
        split; [reflexivity|]. split; [constructor | exact Ht].
  - intros (ts1 & t & ts2 & st1 & -> & Hp & Ht).
    rewrite run_touchers_app.
    apply (run_touchers_normal _ _ _ _ tt) in Hp. rewrite Hp. simpl.
    now rewrite (bind_throw _ _ _ _ _ Ht).
Qed.

(** X3. [Session.touch] does not catch. It returns exactly when every
    registered toucher, run in the registry's order on the session, each in
    the store the one before left, returns. It throws exactly when some
    toucher throws after those before it returned: the exception is the
    toucher's, the store is the one that toucher left, and the touchers
    after it are not run. *)
Theorem touch_spec (g : Globals) (session : loc) (st st' : Store) :
  ((exists r, touch g session st = (st', Normal r)) <->
   all_touched session (JsMap.values (_touchListeners g)) st st')
  /\ (forall e,
        touch g session st = (st', Throw e) <->
        exists ts1 t ts2 st1,
          JsMap.values (_touchListeners g) = ts1 ++ t :: ts2
          /\ all_touched session ts1 st st1
          /\ t session st1 = (st', Throw e)).
Proof.
  split.
  - split.
    + intros (r & H). now apply touch_returns_argument in H.
    + intros H. exists session. now apply touch_all_touched.
  - intros e. rewrite <- run_touchers_throw. unfold touch, bind.
    destruct (run_touchers _ session st) as [st1 [[]|e']]; unfold ret;
      split; intros H; try discriminate; injection H as -> ->; reflexivity.
Qed.

(** X4. [Session.validate] does not catch: it throws exactly when some
    registered validator throws after those before it returned [true]; the
    exception is the validator's, the store is the one that validator left,
    and the validators after it are not run. *)
Theorem validate_throws (g : Globals) (session : loc) (st st' : Store) (e : Exn) :
  validate g session st = (st', Throw e) <->
  exists vs1 v vs2 st1,
    JsMap.values (_validators g) = vs1 ++ v :: vs2
    /\ all_pass session vs1 st st1
    /\ v session st1 = (st', Throw e).
Proof. unfold validate. apply run_validators_throw. Qed.

(** ** Further properties of Session.get *)

Lemma get_unsealed g cookieStore st a pw cookie o :
  sessionSecret g = Some (String a pw) ->
  store_get cookieStore sessionName st = Some cookie ->
  unseal (crypto g) (cookie_value cookie) (String a pw) = Normal o ->
  get g cookieStore st =
    match validate g (length (heap st)) (set_heap (heap st ++ [o]) st) with
    | (st2, Normal true) => (st2, Normal (Result.ok (length (heap st))))
    | (st2, Normal false) => (st2, Normal (Result.error ValidationFailed))
    | (st2, Throw _) => (st2, Normal (Result.error InvalidCookie))
    end.
Proof.
  intros Hs Hc Hu. unfold get. rewrite Hs.
  unfold bind, call_get, try_catch, Iron_unseal. rewrite Hc, Hu. unfold alloc.
  destruct (validate g _ _) as [st2 [[|]|e]]; reflexivity.
Qed.

Lemma get_unseal_fails g cookieStore st a pw cookie e :
  sessionSecret g = Some (String a pw) ->
  store_get cookieStore sessionName st = Some cookie ->
  unseal (crypto g) (cookie_value cookie) (String a pw) = Throw e ->
  get g cookieStore st = (st, Normal (Result.error InvalidCookie)).
Proof.
  intros Hs Hc Hu. unfold get. rewrite Hs.
  unfold bind, call_get, try_catch, Iron_unseal. now rewrite Hc, Hu.
Qed.

Lemma get_returns g cookieStore st a pw :
  sessionSecret g = Some (String a pw) ->
  exists st' r, get g cookieStore st = (st', Normal r).
Proof.
  intros Hs.
  destruct (store_get cookieStore sessionName st) as [c|] eqn:Hc.
  - destruct (unseal (crypto g) (cookie_value c) (String a pw)) as [o|e] eqn:Hu.
    + rewrite (get_unsealed _ _ _ _ _ _ _ Hs Hc Hu).
      destruct (validate g _ _) as [st2 [[|]|e]]; eauto.
    + rewrite (get_unseal_fails _ _ _ _ _ _ _ Hs Hc Hu). eauto.
  - unfold get. rewrite Hs. unfold bind, call_get. rewrite Hc. eauto.
Qed.

(** X5. [setSessionSecret] takes effect on the calls that follow, whatever
    the secret was before: after [setSessionSecret(pw)] with a non-empty
    [pw], [Session.get] returns a [Result] and does not throw; after
    [setSessionSecret("")] both [get] and [save] throw the configuration
    error, as with no secret at all. The crypto object and the two
    registries are not touched. *)
Theorem setSessionSecret_takes_effect (g : Globals) (pw : string)
    (cookieStore : ResponseCookies.t) (session : loc) (st : Store) :
  (pw <> "" ->
     exists st' r, get (setSessionSecret pw g) cookieStore st = (st', Normal r))
  /\ (pw = "" ->
      get (setSessionSecret pw g) cookieStore st
      = (st, Throw (Error "kiyoi: session secret is not set"))
      /\ save (setSessionSecret pw g) session cookieStore st
         = (st, Throw (Error "kiyoi: session secret is not set")))
  /\ crypto (setSessionSecret pw g) = crypto g
  /\ _validators (setSessionSecret pw g) = _validators g
  /\ _touchListeners (setSessionSecret pw g) = _touchListeners g.
Proof.
  split; [|split; [|auto]].
  - intros Hpw. destruct pw as [|a pw]; [contradiction|].
    now apply get_returns with a pw.
  - intros ->. split; reflexivity.
Qed.

(** X6. Changing the secret invalidates the cookies issued before. Save a
    session under the secret [pw1] to a store that reads back what it was
    told to set, then call [setSessionSecret(pw2)]: if no token sealed
    under [pw1] opens under [pw2], [Session.get] returns the
    [InvalidCookie] error and leaves the store as it is. *)
Theorem secret_rotation (g : Globals) (cookieStore : ResponseCookies.t)
    (session : loc) (o : Obj) (pw1 pw2 : string) (st st2 : Store) :
  sessionSecret g = Some pw1 ->
  pw2 <> "" ->
  (forall n o' tok,
      seal (crypto g) n o' pw1 = Normal tok ->
      exists e, unseal (crypto g) tok pw2 = Throw e) ->
  (forall v opts s,
      cookie_value <$>
        ResponseCookies.get cookieStore "session"
          (ResponseCookies.set cookieStore "session" v opts s)
      = Some v) ->
  heap st !! session = Some o ->
  save g session cookieStore st = (st2, Normal tt) ->
  get (setSessionSecret pw2 g) cookieStore st2
  = (st2, Normal (Result.error InvalidCookie)).
Proof.
  intros Hs Hpw2 Hwrong Hstore Ho Hsave.
  destruct (save_inv _ _ _ _ _ _ _ _ Hs Ho Hsave) as (_ & sealed & Hseal & Hst2).
  specialize (Hstore sealed
                (save_options (prop o "expires") (clock st (ticks st)))
                (set_ticks (S (ticks st)) (set_rng (S (rng st)) st))).
  rewrite <- Hst2 in Hstore.
  destruct (ResponseCookies.get cookieStore "session" st2) as [c|] eqn:Hc;
    [|discriminate].
  simpl in Hstore. injection Hstore as Hvalue.
  destruct pw2 as [|a pw2]; [contradiction|].
  destruct (Hwrong _ _ _ Hseal) as (e & He).
  apply get_unseal_fails with a pw2 c e.
  - reflexivity.
  - exact Hc.
  - simpl crypto. now rewrite Hvalue.
Qed.

(** Two reads of a session: [get] builds a new object each time. *)
Lemma get_empty_registry g cookieStore st a pw cookie o :
  sessionSecret g = Some (String a pw) ->
  _validators g = [] ->
  store_get cookieStore sessionName st = Some cookie ->
  unseal (crypto g) (cookie_value cookie) (String a pw) = Normal o ->
  get g cookieStore st
  = (set_heap (heap st ++ [o]) st, Normal (Result.ok (length (heap st)))).
Proof.
  intros Hs Hv Hc Hu. rewrite (get_unsealed _ _ _ _ _ _ _ Hs Hc Hu).
  unfold validate. now rewrite Hv.
Qed.

(** X7. Every [Session.get] builds a new session object from the cookie.
    With no validator registered and a cookie that unseals to [o], [get]
    returns a reference that was not in the heap before, to an object equal
    to [o]; a property written to that session afterwards stays in it, and
    the next [get] on the same cookies returns yet another reference, to an
    object that is [o] again, without the change. *)
Theorem get_builds_new_object (g : Globals) (j : nat) (st : Store)
    (pw : string) (cookie : Cookie) (o : Obj) (k : string) (v : Value) :
  sessionSecret g = Some pw ->
  secret_unset g = false ->
  _validators g = [] ->
  ResponseCookies.get (cookies_of j) "session" st = Some cookie ->
  unseal (crypto g) (cookie_value cookie) pw = Normal o ->
  let l1 := length (heap st) in
  exists st1 st2 st3,
    get g (cookies_of j) st = (st1, Normal (Result.ok l1))
    /\ heap st !! l1 = None
    /\ heap st1 = heap st ++ [o]
    /\ set_prop l1 k v st1 = (st2, Normal tt)
    /\ get g (cookies_of j) st2 = (st3, Normal (Result.ok (S l1)))
    /\ heap st3 !! l1 = Some (<[k := v]> o)
    /\ heap st3 !! S l1 = Some o.
Proof.
  intros Hs Hset Hv Hc Hu l1.
  unfold secret_unset in Hset. rewrite Hs in Hset.
  destruct pw as [|a pw]; [discriminate|].
  assert (Hl1 : (heap st ++ [o]) !! l1 = Some o).
  { subst l1. rewrite lookup_app_r by lia. now rewrite Nat.sub_diag. }
  set (st1 := set_heap (heap st ++ [o]) st).
  set (st2 := set_heap (<[l1 := <[k := v]> o]> (heap st1)) st1).
  exists st1, st2, (set_heap (heap st2 ++ [o]) st2).
  split; [now apply get_empty_registry with a pw cookie|].
  split; [apply lookup_ge_None; subst l1; lia|].
  split; [reflexivity|].
  split; [now apply set_prop_some|].
  assert (Hlen : length (heap st2) = S l1).
  { subst st2 st1 l1. simpl. rewrite length_insert, length_app. simpl. lia. }
  split.
  { rewrite <- Hlen. now apply get_empty_registry with a pw cookie. }
  simpl heap. split.
  - rewrite lookup_app_l by (rewrite length_insert, length_app; simpl; subst l1; lia).
    apply list_lookup_insert_eq. rewrite length_app. simpl. subst l1. lia.
  - rewrite lookup_app_r by (rewrite length_insert, length_app; simpl; subst l1; lia).
    rewrite length_insert, length_app. simpl.
    replace (S l1 - (length (heap st) + 1)) with 0 by (subst l1; lia).
    reflexivity.
Qed.

(** ** The hooks of the bundled plugins *)

Lemma stamp_hook_run (k : string) (f : Z -> Value) l st o :
  heap st !! l = Some o ->
  (let! now := Date_now in set_prop l k (f now) >> ret l) st
  = (set_heap (<[l := <[k := f (clock st (ticks st))]> o]> (heap st))
       (set_ticks (S (ticks st)) st),
     Normal l).
Proof.
  intros Ho. unfold bind at 1. unfold Date_now at 1.
  now rewrite (bind_normal _ _ _ _ _
                 (set_prop_some l k _ (set_ticks (S (ticks st)) st) o Ho)).
Qed.

Lemma expires_validate_run seconds v l st o :
  SessionPlugin.validate (expires seconds) = Some v ->
  heap st !! l = Some o ->
  v l st = (set_ticks (S (ticks st)) st,
            Normal (js_gt (prop o "expires") (clock st (ticks st)))).
Proof.
  intros [= <-] Ho.
  now rewrite (bind_normal _ _ _ _ _ (get_prop_some l "expires" st o Ho)).
Qed.

Lemma idle_validate_run seconds v l st o :
  SessionPlugin.validate (idle seconds) = Some v ->
  heap st !! l = Some o ->
  v l st = (set_ticks (S (ticks st)) st,
            Normal (js_gt (js_add (prop o "lastActive") (seconds * 1000))
                      (clock st (ticks st)))).
Proof.
  intros [= <-] Ho.
  now rewrite (bind_normal _ _ _ _ _ (get_prop_some l "lastActive" st o Ho)).
Qed.

(** X8. The hooks of [expires(seconds)] give a fixed window. The create
    hook returns the session it was given with [expires] set to the time
    of the call plus [seconds * 1000] and nothing else changed; as long as
    the session object stays as the hook left it, the validate hook
    answers [true] exactly when the time it reads is before that instant,
    and it changes no object. On a session with no [expires] property the
    validate hook answers [false]. The plugin has no touch hook. *)
Theorem expires_window (seconds : Z) (h : loc -> M loc) (v : loc -> M bool)
    (l : loc) (o : Obj) (st0 : Store) :
  SessionPlugin.create (expires seconds) = Some h ->
  SessionPlugin.validate (expires seconds) = Some v ->
  heap st0 !! l = Some o ->
  let deadline := (clock st0 (ticks st0) + seconds * 1000)%Z in
  exists st1,
    h l st0 = (st1, Normal l)
    /\ heap st1 = <[l := <["expires" := VNumber deadline]> o]> (heap st0)
    /\ (forall st,
          heap st !! l = heap st1 !! l ->
          v l st = (set_ticks (S (ticks st)) st,
                    Normal (clock st (ticks st) <? deadline)%Z))
    /\ (forall st o',
          heap st !! l = Some o' ->
          o' !! "expires" = None ->
          v l st = (set_ticks (S (ticks st)) st, Normal false))
    /\ SessionPlugin.touch (expires seconds) = None.
Proof.
  intros [= <-] Hv Ho deadline.
  eexists. split.
  { exact (stamp_hook_run "expires" (fun now => VNumber (now + seconds * 1000))
             l st0 o Ho). }
  split; [reflexivity|].
  split; [|split; [|reflexivity]].
  - intros st Hst. simpl in Hst.
    rewrite list_lookup_insert_eq in Hst by (now apply lookup_lt_Some with o).
    rewrite (expires_validate_run _ _ _ _ _ Hv Hst).
    unfold prop. now rewrite lookup_insert_eq.
  - intros st o' Ho' Hnone.
    rewrite (expires_validate_run _ _ _ _ _ Hv Ho').
    unfold prop. now rewrite Hnone.
Qed.

(** X9. The hooks of [idle(seconds)] give a sliding window. The touch
    hook, and the create hook, which is the same function, return the
    session they were given with [lastActive] set to the time of the call
    and nothing else changed; as long as the session object stays as the
    hook left it, the validate hook answers [true] exactly when the time
    it reads is before that time plus [seconds * 1000]. On a session with
    no [lastActive] property the validate hook answers [false]. *)
Theorem idle_window (seconds : Z) (h t : loc -> M loc) (v : loc -> M bool)
    (l : loc) (o : Obj) (st0 : Store) :
  SessionPlugin.create (idle seconds) = Some h ->
  SessionPlugin.touch (idle seconds) = Some t ->
  SessionPlugin.validate (idle seconds) = Some v ->
  heap st0 !! l = Some o ->
  let active := clock st0 (ticks st0) in
  exists st1,
    t l st0 = (st1, Normal l)
    /\ h l st0 = (st1, Normal l)
    /\ heap st1 = <[l := <["lastActive" := VNumber active]> o]> (heap st0)
    /\ (forall st,
          heap st !! l = heap st1 !! l ->
          v l st = (set_ticks (S (ticks st)) st,
                    Normal (clock st (ticks st) <? active + seconds * 1000)%Z))
    /\ (forall st o',
          heap st !! l = Some o' ->
          o' !! "lastActive" = None ->
          v l st = (set_ticks (S (ticks st)) st, Normal false)).
Proof.
  intros [= <-] [= <-] Hv Ho active.
  eexists. split; [exact (stamp_hook_run "lastActive" VNumber l st0 o Ho)|].
  split; [exact (stamp_hook_run "lastActive" VNumber l st0 o Ho)|].
  split; [reflexivity|].
  split.
  - intros st Hst. simpl in Hst.
    rewrite list_lookup_insert_eq in Hst by (now apply lookup_lt_Some with o).
    rewrite (idle_validate_run _ _ _ _ _ Hv Hst).
    unfold prop. now rewrite lookup_insert_eq.
  - intros st o' Ho' Hnone.
    rewrite (idle_validate_run _ _ _ _ _ Hv Ho').
    unfold prop. now rewrite Hnone.
Qed.

(** X10. With the validate hook of [expires] registered as the only
    validator, [Session.get] on a cookie that unseals to [o] runs the hook
    on the new session; the hook reads the clock once, and [get] returns
    success with the new session when [o.expires] is greater than the time
    the hook read, and the [ValidationFailed] error otherwise: for a number
    [e] the test is [now < e], and a session without [expires] always
    fails validation. Here [st_v] is the store in which the hook runs and
    [now] the time it reads there. *)
Theorem get_with_expires_validator (g : Globals) (cookieStore : GetCookieStore)
    (st : Store) (pw : string) (cookie : Cookie) (o : Obj)
    (seconds : Z) (k : string) (v : Validator) :
  sessionSecret g = Some pw ->
  secret_unset g = false ->
  store_get cookieStore sessionName st = Some cookie ->
  unseal (crypto g) (cookie_value cookie) pw = Normal o ->
  SessionPlugin.validate (expires seconds) = Some v ->
  _validators g = [(k, v)] ->
  exists st_v,
    heap st_v = heap st ++ [o]
    /\ v (length (heap st)) st_v
       = (set_ticks (S (ticks st_v)) st_v,
          Normal (js_gt (prop o "expires") (clock st_v (ticks st_v))))
    /\ get g cookieStore st
       = (set_ticks (S (ticks st_v)) st_v,
          Normal (if js_gt (prop o "expires") (clock st_v (ticks st_v))
                  then Result.ok (length (heap st))
                  else Result.error ValidationFailed))
    /\ (forall e, prop o "expires" = VNumber e ->
          js_gt (prop o "expires") (clock st_v (ticks st_v))
          = (clock st_v (ticks st_v) <? e)%Z)
    /\ (o !! "expires" = None ->
        js_gt (prop o "expires") (clock st_v (ticks st_v)) = false).
Proof.
  intros Hs Hset Hc Hu Hv Hreg.
  unfold secret_unset in Hset. rewrite Hs in Hset.
  destruct pw as [|a pw]; [discriminate|].
  exists (set_heap (heap st ++ [o]) st).
  assert (Ho : heap (set_heap (heap st ++ [o]) st) !! length (heap st) = Some o).
  { simpl. rewrite lookup_app_r by lia. now rewrite Nat.sub_diag. }
  split; [reflexivity|].
  split; [exact (expires_validate_run _ _ _ _ _ Hv Ho)|].
  split; [|split].
  - rewrite (get_unsealed _ _ _ _ _ _ _ Hs Hc Hu).
    unfold validate. rewrite Hreg. simpl.
    rewrite (bind_normal _ _ _ _ _ (expires_validate_run _ _ _ _ _ Hv Ho)).
    simpl. now destruct (js_gt (prop o "expires") (clock st (ticks st))).
  - intros e ->. reflexivity.
  - intros Hnone. unfold prop. now rewrite Hnone.
Qed.

(** ** Further properties of Session.create *)

Lemma run_extensions_app ps qs l st :
  run_extensions (ps ++ qs) l st =
  match run_extensions ps l st with
  | (st1, Normal l1) => run_extensions qs l1 st1
  | (st1, Throw e) => (st1, Throw e)
  end.
Proof.
  revert l st. induction ps as [|p ps IH]; intros l st; simpl; [reflexivity|].
  destruct (SessionPlugin.create p) as [h|]; [|apply IH].
  unfold bind. destruct (h l st) as [st1 [l1|e]]; [apply IH | reflexivity].
Qed.

Lemma run_extensions_bundled ps :
  Forall (fun p => exists s, p = expires s \/ p = idle s) ps ->
  forall l st o,
    heap st !! l = Some o ->
    exists st' o',
      run_extensions ps l st = (st', Normal l)
      /\ heap st' = <[l := o']> (heap st)
      /\ (forall k, k <> "expires" -> k <> "lastActive" -> o' !! k = o !! k)
      /\ jars st' = jars st
      /\ clock st' = clock st
      /\ ticks st' = ticks st + length ps
      /\ rng st' = rng st.
Proof.
  induction 1 as [|p ps Hp _ IH]; intros l st o Ho.
  - exists st, o. simpl. repeat split; auto.
    symmetry. now apply list_insert_id.
  - assert (Hstep : exists k f,
              k <> "id" /\ (k = "expires" \/ k = "lastActive")
              /\ SessionPlugin.create p
                 = Some (fun session =>
                           let! now := Date_now in
                           set_prop session k (f now) >> ret session)).
    { destruct Hp as (s & [-> | ->]).
      - exists "expires", (fun now => VNumber (now + s * 1000)).
        split; [discriminate|]. split; [now left | reflexivity].
      - exists "lastActive", VNumber.
        split; [discriminate|]. split; [now right | reflexivity]. }
    destruct Hstep as (k & f & _ & Hk & Hhook).
    simpl. rewrite Hhook.
    rewrite (bind_normal _ _ _ _ _ (stamp_hook_run k f l st o Ho)).
    set (o1 := <[k := f (clock st (ticks st))]> o).
    set (st1 := set_heap (<[l := o1]> (heap st)) (set_ticks (S (ticks st)) st)).
    assert (Ho1 : heap st1 !! l = Some o1).
    { simpl. apply list_lookup_insert_eq. now apply lookup_lt_Some with o. }
    destruct (IH l st1 o1 Ho1) as (st' & o' & Hrun & Hheap & Hkeys & Hj & Hc & Ht & Hr).
    exists st', o'. split; [exact Hrun|].
    split; [rewrite Hheap; simpl; apply list_insert_insert_eq|].
    split.
    { intros key H1 H2. rewrite Hkeys by assumption. subst o1.
      apply lookup_insert_ne. destruct Hk as [-> | ->]; congruence. }
    split; [exact Hj|]. split; [exact Hc|].
    split; [rewrite Ht; simpl; lia | exact Hr].
Qed.

(** X11. With the bundled plugins only ([expires] and [idle], any number,
    any order) [Session.create] always returns, with a reference that was
    not in the heap before; the objects that were there are untouched and
    so are the cookies. The new session has every property of
    [{ id: nanoid(), ...sessionData }] except that the plugins set
    [expires] and [lastActive]; the call makes one random draw and reads
    the clock once per plugin. *)
Theorem create_bundled (sessionData : Obj) (extensions : list SessionPlugin.t)
    (st : Store) :
  Forall (fun p => exists s, p = expires s \/ p = idle s) extensions ->
  exists st' o,
    create sessionData extensions st = (st', Normal (length (heap st)))
    /\ heap st !! length (heap st) = None
    /\ heap st' = heap st ++ [o]
    /\ (forall k, k <> "expires" -> k <> "lastActive" ->
          o !! k = (sessionData ∪ {["id" := VString (nanoid_at (rng st))]}) !! k)
    /\ jars st' = jars st
    /\ ticks st' = ticks st + length extensions
    /\ rng st' = S (rng st).
Proof.
  intros Hb.
  set (o0 := sessionData ∪ {["id" := VString (nanoid_at (rng st))]}).
  set (st0 := set_heap (heap st ++ [o0]) (set_rng (S (rng st)) st)).
  assert (Ho0 : heap st0 !! length (heap st) = Some o0).
  { simpl. rewrite lookup_app_r by lia. now rewrite Nat.sub_diag. }
  destruct (run_extensions_bundled extensions Hb _ _ _ Ho0)
    as (st' & o & Hrun & Hheap & Hkeys & Hj & _ & Ht & Hr).
  exists st', o. split; [exact Hrun|].
  split; [apply lookup_ge_None; lia|].
  split.
  { rewrite Hheap. simpl.
    rewrite insert_app_r_alt by lia. now rewrite Nat.sub_diag. }
  split; [exact Hkeys|]. split; [exact Hj|]. split; [exact Ht | exact Hr].
Qed.

Lemma run_extensions_normal ps l st l' st' :
  run_extensions ps l st = (st', Normal l') <->
  threaded (omap SessionPlugin.create ps) l st l' st'.
Proof.
  split.
  - revert l st. induction ps as [|p ps IH]; intros l st; simpl.
    + unfold ret. intros [= <- <-]. constructor.
    + destruct (SessionPlugin.create p) as [h|]; [|apply IH].
      unfold bind. destruct (h l st) as [st1 [l1|e]] eqn:Hh; [|discriminate].
      intros H. econstructor; eauto.
  - revert l st. induction ps as [|p ps IH]; intros l st; simpl.
    + inversion 1; subst. reflexivity.
    + destruct (SessionPlugin.create p) as [h|]; [|apply IH].
      inversion 1 as [|? ? ? ? l1 st1 ? ? Hh Hrest]; subst.
      rewrite (bind_normal _ _ _ _ _ Hh). now apply IH.
Qed.

Lemma run_extensions_throw ps l st st' e :
  run_extensions ps l st = (st', Throw e) <->
  exists hs1 h hs2 l1 st1,
    omap SessionPlugin.create ps = hs1 ++ h :: hs2
    /\ threaded hs1 l st l1 st1
    /\ h l1 st1 = (st', Throw e).
Proof.
  split.
  - revert l st. induction ps as [|p ps IH]; intros l st; simpl.
    + discriminate.
    + destruct (SessionPlugin.create p) as [h|]; [|apply IH].
      unfold bind. destruct (h l st) as [st1 [l1|e']] eqn:Hh.
      * intros H.
        destruct (IH _ _ H) as (hs1 & h' & hs2 & l2 & st2 & Heq & Hthr & Hh').
        exists (h :: hs1), h', hs2, l2, st2.
        split; [simpl; f_equal; exact Heq|].
        split; [econstructor; eauto | exact Hh'].
      * intros [= <- <-]. exists [], h, (omap SessionPlugin.create ps), l, st.
        split; [reflexivity|]. split; [constructor | exact Hh].
  - revert l st. induction ps as [|p ps IH]; intros l st; simpl.
    + intros (hs1 & h & hs2 & l1 & st1 & Heq & _). now destruct hs1.
    + destruct (SessionPlugin.create p) as [h0|]; [|apply IH].
      intros (hs1 & h & hs2 & l1 & st1 & Heq & Hthr & Hh).
      destruct hs1 as [|h1 hs1]; simpl in Heq; injection Heq as -> Heq.
      * inversion Hthr; subst. now rewrite (bind_throw _ _ _ _ _ Hh).
      * inversion Hthr as [|? ? ? ? l2 st2 ? ? Hh1 Hrest]; subst.
        rewrite (bind_normal _ _ _ _ _ Hh1). apply IH.
        exists hs1, h, hs2, l1, st1. auto.
Qed.

(** X12. [Session.create] threads the session through the create hooks of
    its plugins, in list order, plugins without a create hook being
    skipped: the first hook gets the new object
    [{ id: nanoid(), ...sessionData }], each next hook gets the session
    that the hook before returned, and [create] returns what the last hook
    returned. It returns exactly when every hook, run that way, returns;
    it throws exactly when a hook throws after those before it returned,
    with that hook's exception, and the hooks after it are not run. *)
Theorem create_in_order (sessionData : Obj) (extensions : list SessionPlugin.t)
    (st : Store) :
  let hooks := omap SessionPlugin.create extensions in
  let session0 := length (heap st) in
  let st0 := set_heap
               (heap st ++ [sessionData ∪ {["id" := VString (nanoid_at (rng st))]}])
               (set_rng (S (rng st)) st) in
  (forall session' st',
      create sessionData extensions st = (st', Normal session') <->
      threaded hooks session0 st0 session' st')
  /\ (forall e st',
        create sessionData extensions st = (st', Throw e) <->
        exists hs1 h hs2 session1 st1,
          hooks = hs1 ++ h :: hs2
          /\ threaded hs1 session0 st0 session1 st1
          /\ h session1 st1 = (st', Throw e)).
Proof.
  intros hooks session0 st0.
  assert (Hcreate : create sessionData extensions st
                    = run_extensions extensions session0 st0) by reflexivity.
  split.
  - intros session' st'. rewrite Hcreate. apply run_extensions_normal.
  - intros e st'. rewrite Hcreate. apply run_extensions_throw.
Qed.

(** ** Further properties of Session.save *)

(** X13. [Session.save] on the cookies object of a jar changes the session
    cookie of that jar and nothing else: whatever cookie was there before,
    the session cookie now holds the new token; every other cookie of the
    jar, every other jar and every object, the saved session included, are
    as before. *)
Theorem save_changes_one_cookie (g : Globals) (session : loc) (j : nat)
    (st : Store) (pw : string) (o : Obj) (sealed : string) :
  sessionSecret g = Some pw ->
  secret_unset g = false ->
  heap st !! session = Some o ->
  seal (crypto g) (rng st) o pw = Normal sealed ->
  exists st',
    save g session (cookies_of j) st = (st', Normal tt)
    /\ cookie_value <$> ResponseCookies.get (cookies_of j) "session" st'
       = Some sealed
    /\ (forall n, n <> "session" ->
          ResponseCookies.get (cookies_of j) n st'
          = ResponseCookies.get (cookies_of j) n st)
    /\ (forall j', j' <> j -> jars st' !! j' = jars st !! j')
    /\ heap st' = heap st
    /\ heap st' !! session = Some o.
Proof.
  intros Hs Hset Ho Hseal.
  exists (ResponseCookies.set (cookies_of j) "session" sealed
            (save_options (prop o "expires") (clock st (ticks st)))
            (set_ticks (S (ticks st)) (set_rng (S (rng st)) st))).
  split; [now apply save_run with pw|].
  split; [now rewrite cookies_of_get_set|].
  split.
  { intros n Hn. simpl. rewrite lookup_total_insert_eq.
    apply lookup_insert_ne. congruence. }
  split.
  { intros j' Hj'. simpl. apply lookup_insert_ne. congruence. }
  split; [reflexivity | exact Ho].
Qed.

(** X14. A session without an [expires] property can be saved: with the
    secret set and a token from [Iron.seal], [Session.save] does not throw
    and writes the cookie as usual, with [maxAge] being NaN. For a session
    whose [expires] is a number not after the time of the call the cookie
    is written too, with a [maxAge] that is zero or negative. *)
Theorem save_lifetime_edges (g : Globals) (session : loc)
    (cookieStore : ResponseCookies.t) (st : Store) (pw : string) (o : Obj)
    (sealed : string) :
  sessionSecret g = Some pw ->
  secret_unset g = false ->
  heap st !! session = Some o ->
  seal (crypto g) (rng st) o pw = Normal sealed ->
  exists options,
    save g session cookieStore st
    = (ResponseCookies.set cookieStore "session" sealed options
         (set_ticks (S (ticks st)) (set_rng (S (rng st)) st)),
       Normal tt)
    /\ (o !! "expires" = None -> options !! "maxAge" = Some VNaN)
    /\ (forall e,
          o !! "expires" = Some (VNumber e) ->
          (e <= clock st (ticks st))%Z ->
          exists age, options !! "maxAge" = Some (VNumber age) /\ (age <= 0)%Z).
Proof.
  intros Hs Hset Ho Hseal.
  exists (save_options (prop o "expires") (clock st (ticks st))).
  split; [now apply save_run with pw|].
  split.
  - intros Hnone. rewrite save_options_lookup. simpl.
    unfold prop. now rewrite Hnone.
  - intros e He Hle. exists (e - clock st (ticks st))%Z.
    split; [|lia]. rewrite save_options_lookup. simpl.
    unfold prop. now rewrite He.
Qed.

(** ** mergeCookies *)




(** X16. On such a store neither [Session.save] nor [Session.destroy]
    changes what the store's [get] reads, whatever the module state, the
    session and the outcome of the call: the [Session.get] that follows
    finds the session cookie that came with the request, or none. *)
Theorem merged_store_hides_writes (g : Globals) (session : loc) (j j' : nat)
    (n : string) (st : Store) :
  j <> j' ->
  let merged := mergeCookies {| req_cookies := cookies_of j |}
                             {| res_cookies := cookies_of j' |} in
  store_get merged n (fst (save g session merged st)) = store_get merged n st
  /\ store_get merged n (fst (destroy merged st)) = store_get merged n st.
Proof.
  intros Hne merged. split.
  - unfold save.
    destruct (sessionSecret g) as [[|a pw]|]; try reflexivity.
    unfold bind, Iron_seal, bind, deref.
    destruct (heap st !! session) as [o|]; [|reflexivity].
    destruct (seal (crypto g) (rng st) o (String a pw)) as [sealed|e];
      [|reflexivity].
    unfold get_prop, bind, deref. simpl heap.
    destruct (heap st !! session) as [o'|]; [|reflexivity].
    simpl. now rewrite lookup_total_insert_ne by congruence.
  - simpl. now rewrite lookup_total_alter_ne by congruence.
Qed.

(** ** encrypt and decrypt *)

(** X17. When the encryption secret is [undefined] or the empty string,
    [encrypt] and [decrypt] throw the configuration error and leave the
    store alone. With a secret, [encrypt] returns the token of [Iron.seal]
    or throws what it throws, and [decrypt] returns what [Iron.unseal]
    returns or throws what it throws, nothing being caught; so when
    unsealing inverts sealing under the secret, [decrypt] of what
    [encrypt] returned is the value that was encrypted. *)
Theorem encrypt_decrypt (Data : Type)
    (seal_data : Crypto -> nat -> Data -> string -> completion string)
    (unseal_data : Crypto -> string -> string -> completion Data)
    (c : Encryption.Config) (st : Store) :
  let encrypt := Encryption.encrypt Data seal_data in
  let decrypt := Encryption.decrypt Data unseal_data in
  let unset := match Encryption.secret c with
               | Some (String _ _) => false
               | _ => true
               end in
  (forall d st' e,
      unset = true ->
      (encrypt c d st = (st', Throw e) <->
       st' = st /\ e = Error "kiyoi: encryption secret is not set"))
  /\ (forall tok st' e,
        unset = true ->
        (decrypt c tok st = (st', Throw e) <->
         st' = st /\ e = Error "kiyoi: encryption secret is not set"))
  /\ (forall pw d,
        Encryption.secret c = Some pw -> unset = false ->
        encrypt c d st
        = (set_rng (S (rng st)) st, seal_data (Encryption.crypto c) (rng st) d pw))
  /\ (forall pw tok,
        Encryption.secret c = Some pw -> unset = false ->
        decrypt c tok st = (st, unseal_data (Encryption.crypto c) tok pw))
  /\ (forall pw d tok st1,
        Encryption.secret c = Some pw ->
        (forall n d' tok',
            seal_data (Encryption.crypto c) n d' pw = Normal tok' ->
            unseal_data (Encryption.crypto c) tok' pw = Normal d') ->
        encrypt c d st = (st1, Normal tok) ->
        decrypt c tok st1 = (st1, Normal d)).
Proof.
  intros encrypt decrypt unset. subst encrypt decrypt unset.
  unfold Encryption.encrypt, Encryption.decrypt.
  assert (Hthrow : forall (A : Type) (st' : Store) (e : Exn),
             @throw A (Error "kiyoi: encryption secret is not set") st = (st', Throw e)
             <-> st' = st /\ e = Error "kiyoi: encryption secret is not set").
  { intros A st' e. unfold throw. split.
    - intros [= <- <-]. auto.
    - intros [-> ->]. reflexivity. }
  destruct (Encryption.secret c) as [[|a pw]|].
  - split; [intros d st' e _; apply Hthrow|].
    split; [intros tok st' e _; apply Hthrow|].
    split; [intros pw d _ [=]|]. split; [intros pw tok _ [=]|].
    intros pw d tok st1 _ _ [=].
  - split; [intros d st' e [=]|]. split; [intros tok st' e [=]|].
    split; [intros pw' d [= <-] _; reflexivity|].
    split; [intros pw' tok [= <-] _; reflexivity|].
    intros pw' d tok st1 [= <-] Hinv.
    destruct (seal_data (Encryption.crypto c) (rng st) d (String a pw))
      as [tok'|e] eqn:Hseal; [|discriminate].
    intros [= <- <-]. now rewrite (Hinv _ _ _ Hseal).
  - split; [intros d st' e _; apply Hthrow|].
    split; [intros tok st' e _; apply Hthrow|].
    split; [intros pw d [=]|]. split; [intros pw tok [=]|].
    intros pw d tok st1 [=].
Qed.

(** ** Session.destroy *)

Lemma get_no_cookie_iff g cookieStore st :
  secret_unset g = false ->
  (get g cookieStore st = (st, Normal (Result.error NoCookie)) <->
   store_get cookieStore sessionName st = None).
Proof.
  intros Hset. apply secret_unset_false in Hset as (a & pw & Hs). split.
  - intros Hget.
    destruct (store_get cookieStore sessionName st) as [c|] eqn:Hc; [|reflexivity].
    destruct (unseal (crypto g) (cookie_value c) (String a pw)) as [o|e] eqn:Hu.
    + rewrite (get_unsealed _ _ _ _ _ _ _ Hs Hc Hu) in Hget.
      destruct (validate g _ _) as [st2 [[|]|e]]; discriminate.
    + rewrite (get_unseal_fails _ _ _ _ _ _ _ Hs Hc Hu) in Hget. discriminate.
  - intros Hc. unfold get. rewrite Hs. unfold bind, call_get. now rewrite Hc.
Qed.

Lemma expiring_delete_twice j attrs n st :
  ResponseCookies.delete (expiring_cookies_of j attrs) n
    (ResponseCookies.delete (expiring_cookies_of j attrs) n st)
  = ResponseCookies.delete (expiring_cookies_of j attrs) n st.
Proof.
  simpl. unfold set_jars. simpl. f_equal.
  rewrite lookup_total_insert_eq, insert_insert_eq.
  f_equal. apply insert_insert_eq.
Qed.

(** C8, amended. [Session.destroy] makes the one call
    [cookieStore.delete("session")] and nothing else. With the secret set,
    the [Session.get] that follows on the same store returns [NoCookie]
    exactly when the store's [get] then finds no session cookie, and
    [InvalidCookie] when it finds a cookie with the empty value and the
    empty string does not unseal.
    - On a cookies object whose [delete] removes the cookie, [get] after
      [destroy] returns [NoCookie]; a [destroy] with no session cookie
      there changes nothing, and neither does a second [destroy].
    - On a cookies object whose [delete] leaves the cookie in place, empty
      and expired, as a response's cookies do in the host framework, [get]
      after [destroy] finds that cookie and returns [InvalidCookie]; a
      second [destroy] changes nothing.
    On both, every other cookie, every other jar and the heap are as
    before. *)
Theorem destroy_then_get (g : Globals) (cookieStore : ResponseCookies.t)
    (st : Store) :
  secret_unset g = false ->
  let st' := ResponseCookies.delete cookieStore "session" st in
  destroy cookieStore st = (st', Normal tt)
  /\ (get g cookieStore st' = (st', Normal (Result.error NoCookie)) <->
      ResponseCookies.get cookieStore "session" st' = None)
  /\ (forall pw cookie e,
        sessionSecret g = Some pw ->
        ResponseCookies.get cookieStore "session" st' = Some cookie ->
        cookie_value cookie = "" ->
        unseal (crypto g) "" pw = Throw e ->
        get g cookieStore st' = (st', Normal (Result.error InvalidCookie)))
  /\ (forall j,
        cookieStore = cookies_of j ->
        get g cookieStore st' = (st', Normal (Result.error NoCookie))
        /\ (ResponseCookies.get cookieStore "session" st = None -> st' = st)
        /\ destroy cookieStore st' = (st', Normal tt)
        /\ (forall n, n <> "session" ->
              ResponseCookies.get cookieStore n st'
              = ResponseCookies.get cookieStore n st)
        /\ (forall j', j' <> j -> jars st' !! j' = jars st !! j')
        /\ heap st' = heap st)
  /\ (forall j attrs,
        cookieStore = expiring_cookies_of j attrs ->
        ResponseCookies.get cookieStore "session" st'
        = Some (mkCookie "session" "" (<["expires" := VNumber 0]> attrs))
        /\ (forall pw e,
              sessionSecret g = Some pw ->
              unseal (crypto g) "" pw = Throw e ->
              get g cookieStore st' = (st', Normal (Result.error InvalidCookie)))
        /\ destroy cookieStore st' = (st', Normal tt)
        /\ (forall n, n <> "session" ->
              ResponseCookies.get cookieStore n st'
              = ResponseCookies.get cookieStore n st)
        /\ (forall j', j' <> j -> jars st' !! j' = jars st !! j')
        /\ heap st' = heap st).
Proof.
  intros Hset st'.
  assert (Hnone : get g cookieStore st' = (st', Normal (Result.error NoCookie)) <->
                  ResponseCookies.get cookieStore "session" st' = None)
    by (now apply get_no_cookie_iff).
  assert (Hempty : forall pw cookie e,
             sessionSecret g = Some pw ->
             ResponseCookies.get cookieStore "session" st' = Some cookie ->
             cookie_value cookie = "" ->
             unseal (crypto g) "" pw = Throw e ->
             get g cookieStore st' = (st', Normal (Result.error InvalidCookie))).
  { intros pw cookie e Hs Hc Hv Hu.
    unfold secret_unset in Hset. rewrite Hs in Hset.
    destruct pw as [|a pw]; [discriminate|].
    apply get_unseal_fails with a pw cookie e; [exact Hs | exact Hc |].
    now rewrite Hv. }
  split; [reflexivity|]. split; [exact Hnone|]. split; [exact Hempty|].
  split.
  - intros j ->.
    assert (Hgone : ResponseCookies.get (cookies_of j) "session" st' = None)
      by apply cookies_of_get_delete.
    split; [now apply Hnone|].
    split; [apply cookies_of_delete_absent|].
    split.
    { unfold destroy, call_delete. f_equal.
      apply (cookies_of_delete_absent j "session" st' Hgone). }
    split; [intros n Hn; now apply cookies_of_get_delete_ne|].
    split; [intros j' Hj'; simpl; now rewrite lookup_alter_ne|].
    reflexivity.
  - intros j attrs ->.
    assert (Htomb : ResponseCookies.get (expiring_cookies_of j attrs) "session" st'
                    = Some (mkCookie "session" "" (<["expires" := VNumber 0]> attrs))).
    { apply (cookies_of_get_set j "session" "" _ st). }
    split; [exact Htomb|].
    split.
    { intros pw e Hs Hu.
      exact (Hempty pw _ e Hs Htomb eq_refl Hu). }
    split.
    { unfold destroy, call_delete. f_equal. apply expiring_delete_twice. }
    split.
    { intros n Hn. simpl. rewrite lookup_total_insert_eq.
      apply lookup_insert_ne. congruence. }
    split; [intros j' Hj'; simpl; apply lookup_insert_ne; congruence|].
    reflexivity.
Qed.
End Properties.

(** ** The definitions at work on the concrete platform *)

#[local] Existing Instance Demo.platform.

Lemma Demo_of_bits_bits_of (p : positive) : Demo.of_bits (Demo.bits_of p) = p.
Proof. induction p as [p IH|p IH|]; simpl; now rewrite ?IH. Qed.

(** On the concrete platform unsealing inverts sealing, under any password. *)
Lemma Demo_unseal_seal (c : unit) (n : nat) (o : Obj) (pw tok : string) :
  Demo.seal c n o pw = Normal tok -> Demo.unseal c tok pw = Normal o.
Proof.
  unfold Demo.seal, Demo.unseal. intros [= <-].
  rewrite Demo_of_bits_bits_of, decode_encode. now rewrite String.eqb_refl.
Qed.

Example Demo_store1 :
  Session.create Demo.data0 [expires 3600] Demo.store0 = (Demo.store1, Normal 0)
  /\ heap Demo.store1 = [Demo.session0]
  /\ ticks Demo.store1 = 1 /\ rng Demo.store1 = 1.
Proof. intros; repeat apply conj; vm_compute; reflexivity. Qed.

Example Demo_store2 :
  Session.save Demo.globals0 0 (cookies_of 1) Demo.store1 = (Demo.store2, Normal tt)
  /\ ResponseCookies.get (cookies_of 1) "session" Demo.store2
     = Some (mkCookie "session" Demo.token0 Demo.options0)
  /\ ResponseCookies.get (cookies_of 0) "session" Demo.store2 = None
  /\ ResponseCookies.get (cookies_of 0) "session" Demo.store_req
     = Some (mkCookie "session" Demo.token0 Demo.options0)
  /\ heap Demo.store2 = [Demo.session0]
  /\ ticks Demo.store2 = 2.
Proof. intros; repeat apply conj; vm_compute; reflexivity. Qed.

(** C4. [Session.touch] drops what a toucher returns. With one registered
    toucher, which leaves its argument alone and returns a renewed copy of
    it, [touch] returns the session it was given, still without
    [lastActive], and not the copy the toucher returned. *)
Theorem touch_drops_replacement :
  let g := Session.set_touchListeners [("t1", Demo.replacing)] Demo.globals0 in
  let st := Demo.store1 in
  snd (Demo.replacing 0 st) = Normal 1
  /\ snd (Session.touch g 0 st) = Normal 0
  /\ fst (Session.touch g 0 st) = fst (Demo.replacing 0 st)
  /\ heap (fst (Session.touch g 0 st)) !! 0 = Some Demo.session0
  /\ heap (fst (Session.touch g 0 st)) !! 1
     = Some (<["lastActive" := VNumber 1001]> Demo.session0)
  /\ prop Demo.session0 "lastActive" = VUndefined.
Proof. intros; repeat apply conj; vm_compute; reflexivity. Qed.

(** The sibling loop, in [Session.create], does keep what a hook returns:
    with the same function as a create hook the copy is the session. *)
Example create_keeps_replacement :
  let p := SessionPlugin.mk (Some Demo.replacing) None None in
  snd (Session.create Demo.data0 [p] Demo.store0) = Normal 1
  /\ heap (fst (Session.create Demo.data0 [p] Demo.store0)) !! 1
     = Some (<["lastActive" := VNumber 1000]> (Demo.data0 ∪ {["id" := VString "k"]})).
Proof. intros; repeat apply conj; vm_compute; reflexivity. Qed.

(** *** Session.get *)

Lemma get_outcomes_witness :
  Session.secret_unset Demo.globals0 = false
  /\ (exists st' r,
        Session.get Demo.globals0 (cookies_of 1) Demo.store2 = (st', Normal r))
  /\ Session.secret_unset (Session.setSessionSecret "" Demo.globals0) = true
  /\ Session.get (Session.setSessionSecret "" Demo.globals0) (cookies_of 1) Demo.store2
     = (Demo.store2, Throw (Error "kiyoi: session secret is not set")).
Proof.
  split; [reflexivity|]. split.
  - destruct (proj2 (get_outcomes Demo.globals0 (cookies_of 1) Demo.store2) eq_refl)
      as (st' & r & Hget & _).
    exists st', r. exact Hget.
  - split; [reflexivity|].
    apply (proj1 (get_outcomes (Session.setSessionSecret "" Demo.globals0)
                    (cookies_of 1) Demo.store2)).
    split; [reflexivity|]. split; reflexivity.
Defined.

Lemma get_validator_throws_witness :
  let g := Session.set_validators
             [("v1", Demo.accept); ("v2", Demo.broken); ("v3", Demo.reject)]
             Demo.globals0 in
  Session.get g (cookies_of 1) Demo.store2
  = (set_heap [Demo.session0; Demo.session0] Demo.store2,
     Normal (Result.error InvalidCookie)).
Proof.
  intros g.
  apply (get_validator_throws g (cookies_of 1) Demo.store2 Demo.secret
           (mkCookie "session" Demo.token0 Demo.options0) Demo.session0
           [Demo.accept] Demo.broken [Demo.reject]
           (set_heap [Demo.session0; Demo.session0] Demo.store2)
           (set_heap [Demo.session0; Demo.session0] Demo.store2)
           (Error "validator failed")).
  - reflexivity.
  - reflexivity.
  - vm_compute. reflexivity.
  - apply Demo_unseal_seal with 1. reflexivity.
  - reflexivity.
  - econstructor; [|constructor]. vm_compute. reflexivity.
  - reflexivity.
Defined.

(** *** Session.validate *)

Lemma validate_spec_witness :
  let g := Session.set_validators
             [("v1", Demo.accept); ("v2", Demo.reject); ("v3", Demo.broken)]
             Demo.globals0 in
  Session.validate g 0 Demo.store1 = (Demo.store1, Normal false)
  /\ Session.validate Demo.globals0 0 Demo.store1 = (Demo.store1, Normal true)
  /\ snd (Demo.expires_validate 0 (fst (Session.create Demo.data0 [expires 0] Demo.store0)))
     = Normal false
  /\ Session.create Demo.data0 [expires 3600] Demo.store0
     = Session.create Demo.data0
         [SessionPlugin.mk (SessionPlugin.create (expires 3600)) None None]
         Demo.store0.
Proof.
  intros g. split; [|split; [|split]].
  - apply (proj1 (validate_spec g 0 Demo.store1 Demo.store1)).
    exists [Demo.accept], Demo.reject, [Demo.broken], Demo.store1.
    split; [reflexivity|]. split; [|reflexivity].
    econstructor; [reflexivity | constructor].
  - apply (proj1 (proj2 (proj2 (validate_spec Demo.globals0 0 Demo.store1 Demo.store1)))).
    reflexivity.
  - vm_compute. reflexivity.
  - apply (proj2 (proj2 (proj2 (validate_spec Demo.globals0 0 Demo.store1 Demo.store1)))).
    reflexivity.
Defined.

(** *** The registries *)

Lemma onValidate_removeListener_witness :
  (nanoid_at (rng Demo.store1) ∉ JsMap.keys (Session._validators Demo.globals0))
  /\ (exists st' g',
        Session.onValidate Demo.reject Demo.globals0 Demo.store1
        = (st', Normal (g', "v,kk"))
        /\ JsMap.values (Session._validators g') = [Demo.reject]
        /\ Session.removeListener "v,kk" g' = Demo.globals0)
  /\ Session.removeListener "v,zz"
       (Session.set_validators [("kk", Demo.reject)] Demo.globals0)
     = Session.set_validators [("kk", Demo.reject)] Demo.globals0.
Proof.
  assert (Hfresh : nanoid_at (rng Demo.store1)
                   ∉ JsMap.keys (Session._validators Demo.globals0))
    by apply not_elem_of_nil.
  split; [exact Hfresh|]. split.
  - destruct (proj1 (onValidate_removeListener Demo.globals0 Demo.reject Demo.store1)
                Hfresh)
      as (st' & g' & i & Hreg & Hi & Hvals & _ & Hback & _).
    assert (Hkk : i = "v,kk") by (rewrite Hi; vm_compute; reflexivity).
    rewrite Hkk in Hreg, Hback.
    exists st', g'.
    split; [exact Hreg|]. split; [exact Hvals | exact Hback].
  - apply (proj2 (onValidate_removeListener
                    (Session.set_validators [("kk", Demo.reject)] Demo.globals0)
                    Demo.reject Demo.store1)).
    + intros k Hk. change ("v," +:+ k) with (String "v" (String "," k)) in Hk.
      injection Hk as <-. apply not_elem_of_cons. split; [discriminate|].
      apply not_elem_of_nil.
    + intros k Hk. change ("t," +:+ k) with (String "t" (String "," k)) in Hk.
      discriminate Hk.
Defined.

(** *** Session.save *)

Lemma save_writes_cookie_witness :
  Session.secret_unset (Session.setSessionSecret "" Demo.globals0) = true
  /\ Session.save (Session.setSessionSecret "" Demo.globals0) 0 (cookies_of 1) Demo.store1
     = (Demo.store1, Throw (Error "kiyoi: session secret is not set"))
  /\ Session.secret_unset Demo.globals0 = false
  /\ heap Demo.store1 !! 0 = Some Demo.session0
  /\ seal tt (rng Demo.store1) Demo.session0 Demo.secret = Normal Demo.token0
  /\ Session.save Demo.globals0 0 (cookies_of 1) Demo.store1
     = (ResponseCookies.set (cookies_of 1) "session" Demo.token0 Demo.options0
          (set_ticks 2 (set_rng 2 Demo.store1)),
        Normal tt)
  /\ Demo.options0 !! "maxAge" = Some (VNumber 3599999)
  /\ ResponseCookies.get (cookies_of 1) "session"
       (fst (Session.save Demo.globals0 0 (cookies_of 1) Demo.store1))
     = Some (mkCookie "session" Demo.token0 Demo.options0).
Proof.
  split; [reflexivity|]. split.
  { apply (proj1 (save_writes_cookie (Session.setSessionSecret "" Demo.globals0)
                    0 (cookies_of 1) Demo.store1)).
    reflexivity. }
  split; [reflexivity|].
  assert (Ho : heap Demo.store1 !! 0 = Some Demo.session0) by reflexivity.
  assert (Hseal : seal tt (rng Demo.store1) Demo.session0 Demo.secret
                  = Normal Demo.token0) by reflexivity.
  split; [exact Ho|]. split; [exact Hseal|].
  destruct (proj2 (save_writes_cookie Demo.globals0 0 (cookies_of 1) Demo.store1)
              Demo.secret Demo.session0 Demo.token0 eq_refl eq_refl Ho Hseal)
    as (Hsave & _ & Hage & _ & _ & _ & _ & Hjar).
  split; [exact Hsave|].
  split; [exact (Hage 3601000%Z eq_refl)|].
  exact (Hjar 1 eq_refl).
Defined.

(** *** Session.destroy *)

Lemma destroy_then_get_witness :
  Session.secret_unset Demo.globals0 = false
  /\ (let st' := ResponseCookies.delete (cookies_of 1) "session" Demo.store2 in
      Session.destroy (cookies_of 1) Demo.store2 = (st', Normal tt)
      /\ Session.destroy (cookies_of 1) st' = (st', Normal tt)
      /\ Session.get Demo.globals0 (cookies_of 1) st'
         = (st', Normal (Result.error NoCookie)))
  /\ (let cookieStore := expiring_cookies_of 1 {["path" := VString "/"]} in
      let st' := ResponseCookies.delete cookieStore "session" Demo.store2 in
      unseal tt "" Demo.secret
      = Throw (Error "Incorrect number of sealed components")
      /\ Session.destroy cookieStore Demo.store2 = (st', Normal tt)
      /\ Session.destroy cookieStore st' = (st', Normal tt)
      /\ Session.get Demo.globals0 cookieStore st'
         = (st', Normal (Result.error InvalidCookie))).
Proof.
  split; [reflexivity|]. split.
  - destruct (destroy_then_get Demo.globals0 (cookies_of 1) Demo.store2 eq_refl)
      as (Hd & _ & _ & Hjar & _).
    destruct (Hjar 1 eq_refl) as (Hget & _ & Hagain & _).
    split; [exact Hd|]. split; [exact Hagain | exact Hget].
  - assert (Hu : unseal tt "" Demo.secret
                 = Throw (Error "Incorrect number of sealed components"))
      by (vm_compute; reflexivity).
    destruct (destroy_then_get Demo.globals0
                (expiring_cookies_of 1 {["path" := VString "/"]})
                Demo.store2 eq_refl)
      as (Hd & _ & _ & _ & Hkeep).
    destruct (Hkeep 1 {["path" := VString "/"]} eq_refl) as (_ & Hget & Hagain & _).
    split; [exact Hu|]. split; [exact Hd|]. split; [exact Hagain|].
    exact (Hget Demo.secret _ eq_refl Hu).
Defined.

(** *** Session.touch *)

Lemma touch_idle_witness :
  let g := Session.set_touchListeners [("t1", Demo.idle_touch)] Demo.globals0 in
  SessionPlugin.touch (idle 60) = Some Demo.idle_touch
  /\ heap Demo.store1 !! 0 = Some Demo.session0
  /\ exists st',
       Session.touch g 0 Demo.store1 = (st', Normal 0)
       /\ heap st' !! 0 = Some (<["lastActive" := VNumber 1001]> Demo.session0).
Proof.
  intros g. split; [reflexivity|]. split; [reflexivity|].
  destruct (touch_idle g 60 "t1" Demo.idle_touch 0 Demo.session0 Demo.store1
              eq_refl eq_refl eq_refl)
    as (st' & o' & Htouch & Ho' & Heq & _).
  exists st'. split; [exact Htouch|]. subst o'. exact Ho'.
Defined.

(** *** Session.create *)

Lemma create_id_witness :
  Demo.data0 !! "id" = None
  /\ exists st' session o,
       Session.create Demo.data0 [expires 3600; idle 60] Demo.store0
       = (st', Normal session)
       /\ heap st' !! session = Some o
       /\ prop o "id" = VString "k".
Proof.
  split; [reflexivity|].
  assert (Hhooks :
    Forall (fun p => forall h, SessionPlugin.create p = Some h -> keeps_id h)
           [expires 3600; idle 60]).
  { repeat constructor; [apply expires_keeps_id | apply idle_keeps_id]. }
  destruct (create_id Demo.data0 [expires 3600; idle 60] Demo.store0 eq_refl Hhooks)
    as (st' & session & o & Hcreate & Ho & Hid & _).
  exists st', session, o. split; [exact Hcreate|]. split; [exact Ho | exact Hid].
Defined.

(** C3, the claim as written fails: a plugin's create hook may overwrite
    the identifier. With a hook that blanks it, two calls return sessions
    whose [id] is the empty string, twice the same. *)
Lemma create_blanked_id :
  let r1 := Session.create Demo.data0 [Demo.blanking] Demo.store0 in
  let r2 := Session.create Demo.data0 [Demo.blanking] (fst r1) in
  snd r1 = Normal 0
  /\ snd r2 = Normal 1
  /\ heap (fst r2) !! 0 = Some (<["id" := VString ""]> Demo.data0)
  /\ heap (fst r2) !! 1 = Some (<["id" := VString ""]> Demo.data0)
  /\ prop (<["id" := VString ""]> Demo.data0) "id" = VString "".
Proof. intros; repeat apply conj; vm_compute; reflexivity. Qed.

(** The session data wins over the generated identifier as well: the
    object literal spreads [sessionData] after [id]. *)
Example create_data_id_wins :
  let d : Obj := {[ "id" := VString "mine" ]} in
  let r1 := Session.create d [] Demo.store0 in
  let r2 := Session.create d [] (fst r1) in
  heap (fst r2) = [d; d] /\ rng (fst r2) = 2.
Proof. intros; repeat apply conj; vm_compute; reflexivity. Qed.

(** *** save, then get *)

Lemma save_then_get_witness :
  Session.create Demo.data0 [expires 3600] Demo.store0 = (Demo.store1, Normal 0)
  /\ Session.save Demo.globals0 0 (cookies_of 1) Demo.store1 = (Demo.store2, Normal tt)
  /\ Session.get Demo.globals0 (cookies_of 1) Demo.store2
     = (set_heap [Demo.session0; Demo.session0] Demo.store2, Normal (Result.ok 1))
  /\ heap Demo.store1 !! 0 = Some Demo.session0.
Proof.
  assert (Hcreate : Session.create Demo.data0 [expires 3600] Demo.store0
                    = (Demo.store1, Normal 0)) by (vm_compute; reflexivity).
  assert (Hsave : Session.save Demo.globals0 0 (cookies_of 1) Demo.store1
                  = (Demo.store2, Normal tt)) by (vm_compute; reflexivity).
  split; [exact Hcreate|]. split; [exact Hsave|].
  destruct (save_then_get Demo.globals0 (cookies_of 1) Demo.data0 3600 Demo.secret
              Demo.store0 Demo.store1 Demo.store2
              (set_heap [Demo.session0; Demo.session0] Demo.store2) 0)
    as (Hget & Ho & _).
  - reflexivity.
  - intros n o tok. apply Demo_unseal_seal.
  - intros v opts s. simpl.
    rewrite lookup_total_insert_eq, lookup_insert_eq. reflexivity.
  - exact Hcreate.
  - exact Hsave.
  - vm_compute. reflexivity.
  - vm_compute. reflexivity.
  - split; [exact Hget | exact Ho].
Defined.

(** C2, the claim as written fails on the store that [mergeCookies] builds:
    [save] writes the response's cookies and [get] reads the request's.
    Here unsealing inverts sealing, no validator is registered and the
    session, created with [expires(3600)], expires an hour from now; yet the
    [get] that follows the [save] on the same store returns [NoCookie]. *)
Lemma save_then_get_merged :
  let cookieStore := mergeCookies Demo.request Demo.response in
  let saved := Session.save Demo.globals0 0 cookieStore Demo.store1 in
  Session.create Demo.data0 [expires 3600] Demo.store0 = (Demo.store1, Normal 0)
  /\ snd saved = Normal tt
  /\ (forall n o tok,
        seal tt n o Demo.secret = Normal tok -> unseal tt tok Demo.secret = Normal o)
  /\ Session._validators Demo.globals0 = []
  /\ prop Demo.session0 "expires" = VNumber 3601000
  /\ (clock (fst saved) (ticks (fst saved)) < 3601000)%Z
  /\ ResponseCookies.get (cookies_of 1) "session" (fst saved)
     = Some (mkCookie "session" Demo.token0 Demo.options0)
  /\ Session.get Demo.globals0 cookieStore (fst saved)
     = (fst saved, Normal (Result.error NoCookie)).
Proof.
  intros cookieStore saved.
  split; [vm_compute; reflexivity|].
  split; [vm_compute; reflexivity|].
  split; [intros n o tok; apply Demo_unseal_seal|].
  split; [reflexivity|].
  split; [vm_compute; reflexivity|].
  split; [vm_compute; reflexivity|].
  split; vm_compute; reflexivity.
Qed.

(** C8, the claim as written fails on the store that [mergeCookies] builds:
    [destroy] deletes from the response's cookies and [get] reads the
    request's. The request came with a session cookie; after [destroy] on
    the merged store, [get] on the same store returns the session, not
    [NoCookie]. *)
Lemma destroy_then_get_merged :
  let cookieStore := mergeCookies Demo.request Demo.response in
  let destroyed := Session.destroy cookieStore Demo.store_req in
  Session.secret_unset Demo.globals0 = false
  /\ snd destroyed = Normal tt
  /\ snd (Session.get Demo.globals0 cookieStore (fst destroyed))
     = Normal (Result.ok 1)
  /\ heap (fst (Session.get Demo.globals0 cookieStore (fst destroyed))) !! 1
     = Some Demo.session0.
Proof. intros; repeat apply conj; vm_compute; reflexivity. Qed.

(** *** Validators at work in [Session.get] *)

(** A validator may change the session it is shown: [get] then succeeds
    with a session that is no longer the one that was saved. *)
Example get_after_stamping_validator :
  let g := Session.set_validators [("v1", Demo.stamping)] Demo.globals0 in
  snd (Session.get g (cookies_of 1) Demo.store2) = Normal (Result.ok 1)
  /\ heap (fst (Session.get g (cookies_of 1) Demo.store2)) !! 1
     = Some (<["seen" := VBool true]> Demo.session0).
Proof. intros; repeat apply conj; vm_compute; reflexivity. Qed.

(** A session created with [expires(0)], saved, and read back with the
    plugin's validate hook registered: [ValidationFailed]. With nothing
    registered the same session is returned. *)
Example get_expired_session :
  let st1 := fst (Session.create Demo.data0 [expires 0] Demo.store0) in
  let st2 := fst (Session.save Demo.globals0 0 (cookies_of 1) st1) in
  let g := Session.set_validators [("v1", Demo.expires_validate)] Demo.globals0 in
  snd (Session.get g (cookies_of 1) st2) = Normal (Result.error ValidationFailed)
  /\ snd (Session.get Demo.globals0 (cookies_of 1) st2) = Normal (Result.ok 1).
Proof. intros; repeat apply conj; vm_compute; reflexivity. Qed.

(** ** The further properties at work on the concrete platform *)

(** On the concrete platform a token does not open under another password. *)
Lemma Demo_unseal_other_password (c : unit) (n : nat) (o : Obj) (pw pw' tok : string) :
  pw <> pw' ->
  Demo.seal c n o pw = Normal tok ->
  Demo.unseal c tok pw' = Throw (Error "Bad hmac value").
Proof.
  intros Hne. unfold Demo.seal, Demo.unseal. intros [= <-].
  rewrite Demo_of_bits_bits_of, decode_encode.
  now destruct (String.eqb_spec pw pw').
Qed.

Lemma onTouch_removeListener_witness :
  (nanoid_at (rng Demo.store1) ∉ JsMap.keys (Session._touchListeners Demo.globals0))
  /\ exists g',
       Session.onTouch Demo.idle_touch Demo.globals0 Demo.store1
       = (set_rng 2 Demo.store1, Normal (g', "t,kk"))
       /\ JsMap.values (Session._touchListeners g') = [Demo.idle_touch]
       /\ Session.removeListener "t,kk" g' = Demo.globals0.
Proof.
  assert (Hfresh : nanoid_at (rng Demo.store1)
                   ∉ JsMap.keys (Session._touchListeners Demo.globals0))
    by apply not_elem_of_nil.
  split; [exact Hfresh|].
  destruct (onTouch_removeListener Demo.globals0 Demo.idle_touch Demo.store1 Hfresh)
    as (g' & i & Hreg & Hi & Hvals & _ & Hback & _).
  assert (Hkk : i = "t,kk") by (rewrite Hi; vm_compute; reflexivity).
  rewrite Hkk in Hreg, Hback.
  exists g'. split; [exact Hreg|]. split; [exact Hvals | exact Hback].
Defined.

Lemma removeListener_by_prefix_witness :
  let g := Session.set_validators
             [("a", Demo.accept); ("b", Demo.reject); ("c", Demo.broken)]
             (Session.set_touchListeners [("b", Demo.idle_touch)] Demo.globals0) in
  Session.removeListener "v,b" g
  = Session.set_validators [("a", Demo.accept); ("c", Demo.broken)] g
  /\ Session._touchListeners (Session.removeListener "v,b" g)
     = [("b", Demo.idle_touch)]
  /\ Session.removeListener "t,b" g = Session.set_touchListeners [] g
  /\ Session._validators (Session.removeListener "t,b" g) = Session._validators g.
Proof.
  intros g.
  assert (Ha : "b" ∉ JsMap.keys [("a", Demo.accept)]).
  { apply not_elem_of_cons. split; [discriminate | apply not_elem_of_nil]. }
  destruct (proj1 (removeListener_by_prefix g "b") Demo.reject
              [("a", Demo.accept)] [("c", Demo.broken)] eq_refl Ha)
    as (Hv & _ & Ht).
  destruct (proj2 (removeListener_by_prefix g "b") Demo.idle_touch [] [] eq_refl
              (not_elem_of_nil _))
    as (Ht' & _ & Hv').
  split; [exact Hv|]. split; [exact Ht|]. split; [exact Ht' | exact Hv'].
Defined.

Lemma setSessionSecret_takes_effect_witness :
  let g := Session.set_sessionSecret None Demo.globals0 in
  (exists st' r,
      Session.get (Session.setSessionSecret "a new secret" g) (cookies_of 1) Demo.store2
      = (st', Normal r))
  /\ Session.get (Session.setSessionSecret "" Demo.globals0) (cookies_of 1) Demo.store2
     = (Demo.store2, Throw (Error "kiyoi: session secret is not set"))
  /\ Session.save (Session.setSessionSecret "" Demo.globals0) 0 (cookies_of 1) Demo.store2
     = (Demo.store2, Throw (Error "kiyoi: session secret is not set")).
Proof.
  intros g. split.
  - apply (proj1 (setSessionSecret_takes_effect g "a new secret" (cookies_of 1)
                    0 Demo.store2)).
    discriminate.
  - apply (proj1 (proj2 (setSessionSecret_takes_effect Demo.globals0 ""
                           (cookies_of 1) 0 Demo.store2))).
    reflexivity.
Defined.

Lemma secret_rotation_witness :
  Session.save Demo.globals0 0 (cookies_of 1) Demo.store1 = (Demo.store2, Normal tt)
  /\ Session.get (Session.setSessionSecret "a new secret" Demo.globals0)
       (cookies_of 1) Demo.store2
     = (Demo.store2, Normal (Result.error InvalidCookie)).
Proof.
  assert (Hsave : Session.save Demo.globals0 0 (cookies_of 1) Demo.store1
                  = (Demo.store2, Normal tt)) by (vm_compute; reflexivity).
  split; [exact Hsave|].
  apply (secret_rotation Demo.globals0 (cookies_of 1) 0 Demo.session0
           Demo.secret "a new secret" Demo.store1 Demo.store2).
  - reflexivity.
  - discriminate.
  - intros n o' tok Hseal. exists (Error "Bad hmac value").
    apply (Demo_unseal_other_password tt n o' Demo.secret "a new secret" tok);
      [discriminate | exact Hseal].
  - intros v opts s. simpl.
    rewrite lookup_total_insert_eq, lookup_insert_eq. reflexivity.
  - reflexivity.
  - exact Hsave.
Defined.

Lemma get_builds_new_object_witness :
  exists st1 st2 st3,
    Session.get Demo.globals0 (cookies_of 1) Demo.store2 = (st1, Normal (Result.ok 1))
    /\ set_prop 1 "cart" (VNumber 3) st1 = (st2, Normal tt)
    /\ Session.get Demo.globals0 (cookies_of 1) st2 = (st3, Normal (Result.ok 2))
    /\ heap st3 !! 1 = Some (<["cart" := VNumber 3]> Demo.session0)
    /\ heap st3 !! 2 = Some Demo.session0.
Proof.
  destruct (get_builds_new_object Demo.globals0 1 Demo.store2 Demo.secret
              (mkCookie "session" Demo.token0 Demo.options0) Demo.session0
              "cart" (VNumber 3))
    as (st1 & st2 & st3 & H1 & _ & _ & H2 & H3 & H4 & H5).
  - reflexivity.
  - reflexivity.
  - reflexivity.
  - vm_compute. reflexivity.
  - apply Demo_unseal_seal with 1. reflexivity.
  - exists st1, st2, st3. auto.
Defined.

Lemma expires_window_witness :
  exists st1,
    default ret (SessionPlugin.create (expires 0)) 0 Demo.store1 = (st1, Normal 0)
    /\ heap st1 = [<["expires" := VNumber 1001]> Demo.session0]
    /\ Demo.expires_validate 0 st1 = (set_ticks 3 st1, Normal false).
Proof.
  destruct (expires_window 0 (default ret (SessionPlugin.create (expires 0)))
              Demo.expires_validate 0 Demo.session0 Demo.store1
              eq_refl eq_refl eq_refl)
    as (st1 & Hh & Hheap & Hv & _).
  exists st1. split; [exact Hh|]. split; [exact Hheap|].
  rewrite (Hv st1 eq_refl).
  assert (Hticks : ticks st1 = 2) by (injection Hh as <-; reflexivity).
  assert (Hclock : clock st1 = clock Demo.store1) by (injection Hh as <-; reflexivity).
  rewrite Hticks, Hclock. reflexivity.
Defined.

Lemma idle_window_witness :
  exists st1,
    Demo.idle_touch 0 Demo.store1 = (st1, Normal 0)
    /\ heap st1 = [<["lastActive" := VNumber 1001]> Demo.session0]
    /\ default (fun _ => ret false) (SessionPlugin.validate (idle 60)) 0 st1
       = (set_ticks 3 st1, Normal true).
Proof.
  destruct (idle_window 60 (default ret (SessionPlugin.create (idle 60)))
              Demo.idle_touch
              (default (fun _ => ret false) (SessionPlugin.validate (idle 60)))
              0 Demo.session0 Demo.store1 eq_refl eq_refl eq_refl eq_refl)
    as (st1 & Ht & _ & Hheap & Hv & _).
  exists st1. split; [exact Ht|]. split; [exact Hheap|].
  rewrite (Hv st1 eq_refl).
  assert (Hticks : ticks st1 = 2) by (injection Ht as <-; reflexivity).
  assert (Hclock : clock st1 = clock Demo.store1) by (injection Ht as <-; reflexivity).
  rewrite Hticks, Hclock. reflexivity.
Defined.

Lemma get_with_expires_validator_witness :
  let g := Session.set_validators [("v1", Demo.expires_validate)] Demo.globals0 in
  exists st_v,
    heap st_v = [Demo.session0; Demo.session0]
    /\ Session.get g (cookies_of 1) Demo.store2
       = (set_ticks (S (ticks st_v)) st_v,
          Normal (if js_gt (prop Demo.session0 "expires") (clock st_v (ticks st_v))
                  then Result.ok 1
                  else Result.error ValidationFailed))
    /\ Session.get g (cookies_of 1) Demo.store2
       = (set_ticks 3 (set_heap [Demo.session0; Demo.session0] Demo.store2),
          Normal (Result.ok 1)).
Proof.
  intros g.
  destruct (get_with_expires_validator g (cookies_of 1) Demo.store2 Demo.secret
              (mkCookie "session" Demo.token0 Demo.options0) Demo.session0
              0 "v1" Demo.expires_validate)
    as (st_v & Hheap & _ & Hget & _).
  - reflexivity.
  - reflexivity.
  - vm_compute. reflexivity.
  - apply Demo_unseal_seal with 1. reflexivity.
  - reflexivity.
  - reflexivity.
  - exists st_v. split; [exact Hheap|]. split; [exact Hget|].
    vm_compute. reflexivity.
Defined.

Lemma create_bundled_witness :
  exists st' o,
    Session.create Demo.data0 [expires 3600; idle 60; expires 5] Demo.store0
    = (st', Normal 0)
    /\ heap st' = [o]
    /\ o !! "user" = Some (VString "ann")
    /\ ticks st' = 3.
Proof.
  assert (Hb : Forall (fun p => exists s, p = expires s \/ p = idle s)
                      [expires 3600; idle 60; expires 5]).
  { repeat constructor; eexists; (left; reflexivity) || (right; reflexivity). }
  destruct (create_bundled Demo.data0 [expires 3600; idle 60; expires 5]
              Demo.store0 Hb)
    as (st' & o & Hcreate & _ & Hheap & Hkeys & _ & Hticks & _).
  exists st', o. split; [exact Hcreate|]. split; [exact Hheap|].
  split; [|exact Hticks].
  rewrite Hkeys by discriminate. reflexivity.
Defined.

Lemma create_in_order_witness :
  let copying := SessionPlugin.mk (Some Demo.replacing) None None in
  let silent := SessionPlugin.mk None (Some Demo.accept) None in
  let failing := SessionPlugin.mk (Some (fun _ => throw (Error "hook failed")))
                   None None in
  let o := Demo.data0 ∪ {["id" := VString "k"]} in
  (exists st',
      Session.create Demo.data0 [copying; silent; expires 3600] Demo.store0
      = (st', Normal 1)
      /\ heap st' = [o; <["expires" := VNumber 3601001]>
                          (<["lastActive" := VNumber 1000]> o)])
  /\ Session.create Demo.data0 [expires 3600; failing; idle 60] Demo.store0
     = (Demo.store1, Throw (Error "hook failed")).
Proof.
  intros copying silent failing o.
  destruct (create_in_order Demo.data0 [copying; silent; expires 3600] Demo.store0)
    as [Hreturns _].
  destruct (create_in_order Demo.data0 [expires 3600; failing; idle 60] Demo.store0)
    as [_ Hthrows].
  split.
  - eexists. split.
    + apply (proj2 (Hreturns _ _)).
      eapply threaded_cons; [reflexivity|].
      eapply threaded_cons; [reflexivity|].
      apply threaded_nil.
    + vm_compute. reflexivity.
  - apply (proj2 (Hthrows _ _)).
    exists (omap SessionPlugin.create [expires 3600]),
           (fun _ => throw (Error "hook failed")),
           (omap SessionPlugin.create [idle 60]), 0, Demo.store1.
    split; [reflexivity|]. split; [|reflexivity].
    apply (threaded_cons _ _ _ _ 0 Demo.store1 0 Demo.store1).
    + vm_compute. reflexivity.
    + apply threaded_nil.
Defined.

Lemma save_changes_one_cookie_witness :
  exists st' sealed,
    seal tt (rng Demo.store2) Demo.session0 Demo.secret = Normal sealed
    /\ Session.save Demo.globals0 0 (cookies_of 1) Demo.store2 = (st', Normal tt)
    /\ cookie_value <$> ResponseCookies.get (cookies_of 1) "session" st'
       = Some sealed
    /\ heap st' = heap Demo.store2.
Proof.
  destruct (save_changes_one_cookie Demo.globals0 0 1 Demo.store2 Demo.secret
              Demo.session0
              (Demo.bits_of (encode (Demo.secret, rng Demo.store2, Demo.session0)))
              eq_refl eq_refl eq_refl eq_refl)
    as (st' & Hsave & Hget & _ & _ & Hheap & _).
  exists st',
         (Demo.bits_of (encode (Demo.secret, rng Demo.store2, Demo.session0))).
  split; [reflexivity|].
  split; [exact Hsave|]. split; [exact Hget | exact Hheap].
Defined.

Lemma save_lifetime_edges_witness :
  let st := fst (Session.create Demo.data0 [] Demo.store0) in
  let o := Demo.data0 ∪ {["id" := VString "k"]} in
  heap st !! 0 = Some o
  /\ o !! "expires" = None
  /\ exists sealed options,
       Session.save Demo.globals0 0 (cookies_of 1) st
       = (ResponseCookies.set (cookies_of 1) "session" sealed options
            (set_ticks 1 (set_rng 2 st)),
          Normal tt)
       /\ options !! "maxAge" = Some VNaN.
Proof.
  intros st o.
  assert (Ho : heap st !! 0 = Some o) by reflexivity.
  assert (Hnone : o !! "expires" = None) by reflexivity.
  split; [exact Ho|]. split; [exact Hnone|].
  destruct (save_lifetime_edges Demo.globals0 0 (cookies_of 1) st Demo.secret o
              (Demo.bits_of (encode (Demo.secret, rng st, o)))
              eq_refl eq_refl Ho eq_refl)
    as (options & Hsave & Hnan & _).
  exists (Demo.bits_of (encode (Demo.secret, rng st, o))), options.
  split; [exact Hsave | exact (Hnan Hnone)].
Defined.


Lemma merged_store_hides_writes_witness :
  let merged := mergeCookies Demo.request Demo.response in
  store_get merged "session"
    (fst (Session.save Demo.globals0 0 merged Demo.store1)) = None
  /\ store_get merged "session" (fst (Session.destroy merged Demo.store_req))
     = Some (mkCookie "session" Demo.token0 Demo.options0).
Proof.
  intros merged.
  assert (Hne : 0 <> 1) by discriminate.
  destruct (merged_store_hides_writes Demo.globals0 0 0 1 "session" Demo.store1 Hne)
    as (Hsave & _).
  destruct (merged_store_hides_writes Demo.globals0 0 0 1 "session" Demo.store_req Hne)
    as (_ & Hdestroy).
  split.
  - etransitivity; [exact Hsave|]. reflexivity.
  - etransitivity; [exact Hdestroy|]. vm_compute. reflexivity.
Defined.

Lemma encrypt_decrypt_witness :
  let c := Encryption.mkConfig (Some Demo.secret) tt in
  let tok := Demo.bits_of (encode (Demo.secret, 0, Demo.session0)) in
  Encryption.encrypt Obj Demo.seal c Demo.session0 Demo.store0
  = (set_rng 1 Demo.store0, Normal tok)
  /\ Encryption.decrypt Obj Demo.unseal c tok (set_rng 1 Demo.store0)
     = (set_rng 1 Demo.store0, Normal Demo.session0)
  /\ Encryption.encrypt Obj Demo.seal (Encryption.setEncryptionSecret "" c)
       Demo.session0 Demo.store0
     = (Demo.store0, Throw (Error "kiyoi: encryption secret is not set")).
Proof.
  intros c tok.
  assert (Henc : Encryption.encrypt Obj Demo.seal c Demo.session0 Demo.store0
                 = (set_rng 1 Demo.store0, Normal tok)) by reflexivity.
  split; [exact Henc|]. split.
  - destruct (@encrypt_decrypt Demo.platform Obj Demo.seal Demo.unseal c Demo.store0)
      as (_ & _ & _ & _ & Hround).
    apply (Hround Demo.secret Demo.session0 tok (set_rng 1 Demo.store0) eq_refl).
    + intros n d' tok'. apply Demo_unseal_seal.
    + exact Henc.
  - destruct (@encrypt_decrypt Demo.platform Obj Demo.seal Demo.unseal
                (Encryption.setEncryptionSecret "" c) Demo.store0)
      as (Hthrow & _).
    apply (Hthrow Demo.session0 Demo.store0
             (Error "kiyoi: encryption secret is not set") eq_refl).
    split; reflexivity.
Defined.
